(** * lenstronomy: the Numerics orchestrator

    A shallow embedding of [lenstronomy/ImSim/Numerics/numerics.py]: the
    class [Numerics], its constructor and its two operations
    [re_size_convolve] and [coordinates_evaluate].

    numpy floats are idealised as real numbers ([R]); 2d arrays are lists of
    rows.  The module [Binary64] repeats the embedding on binary64 numbers,
    for the statements that depend on rounding.  The classes a [Numerics] object is wired from (RegularGrid,
    AdaptiveGrid, the four convolution classes, PointSourceRendering) live
    in other modules of the package: an object of such a class is
    represented by the constructor call that made it, and what its
    constructor and methods do is supplied by a record of collaborators. *)

From Stdlib Require Import Reals Lra Lia List String ZArith Bool Arith.
From Stdlib Require PrimFloat Uint63.
Import ListNotations.

Local Open Scope string_scope.
Local Open Scope list_scope.

(** ** Data *)

Definition image : Type := list (list R).
Definition mask : Type := list (list bool).
Definition coordinate : Type := (R * R)%type.

(** [PixelGrid()] instance: the attributes the constructor reads. *)
Record PixelGrid : Type := {
  pixel_width : R;
  num_pixel_axes : nat * nat;
  transform_pix2angle : (R * R) * (R * R);
  radec_at_xy_0 : R * R
}.

(** [PSF()] instance: the attributes and the method the constructor reads. *)
Record PSF : Type := {
  psf_type : string;
  fwhm : R;
  kernel_point_source : image;
  kernel_point_source_supersampled : Z -> image
}.

(** The two grid classes, as their constructor calls (lines 49-53). *)
Inductive Grid : Type :=
| AdaptiveGrid (nx ny : nat) (transform : (R * R) * (R * R))
    (ra_at_xy_0 dec_at_xy_0 : R) (supersampled_indexes : mask)
    (supersampling_factor : Z) (flux_evaluate_indexes : option mask)
| RegularGrid (nx ny : nat) (transform : (R * R) * (R * R))
    (ra_at_xy_0 dec_at_xy_0 : R)
    (supersampling_factor : Z) (flux_evaluate_indexes : option mask).

(** The four convolution classes, as their constructor calls (lines 58-79). *)
Inductive Convolution : Type :=
| AdaptiveConvolution (kernel_super : image) (supersampling_factor : Z)
    (conv_supersample_pixels : mask) (supersampling_kernel_size : Z)
    (compute_pixels : option mask) (nopython cache parallel : bool)
| SubgridKernelConvolution (kernel_super : image) (supersampling_factor : Z)
    (supersampling_kernel_size : Z) (convolution_type : string)
| PixelKernelConvolution (kernel : image) (convolution_type : string)
| MultiGaussianConvolution (sigma_list : list R) (fraction_list : list Z)
    (pixel_scale : R) (supersampling_factor : Z)
    (supersampling_convolution : bool) (truncation : Z).

(** The base class part of a [Numerics] object, as the [super().__init__]
    call of lines 84-85. *)
Record PointSourceRendering : Type := {
  psr_pixel_grid : PixelGrid;
  psr_supersampling_factor : Z;
  psr_psf : PSF
}.

(** ** Errors *)

(** [InvalidConfiguration] is the [ValueError] a constructor raises, with its
    message; [ShapeMismatch] is raised for a flux array that does not fit the
    coordinate sequence; [AttributeError] is a method call on [None]. *)
Inductive error : Type :=
| InvalidConfiguration (msg : string)
| ShapeMismatch
| AttributeError.

Inductive result (A : Type) : Type :=
| Ok (a : A)
| Err (e : error).
Arguments Ok {A} a.
Arguments Err {A} e.

Definition rbind {A B : Type} (r : result A) (k : A -> result B) : result B :=
  match r with
  | Ok a => k a
  | Err e => Err e
  end.

Definition rmap {A B : Type} (f : A -> B) (r : result A) : result B :=
  rbind r (fun a => Ok (f a)).

Declare Scope result_scope.
Delimit Scope result_scope with result.
Notation "x <- r ;; k" := (rbind r (fun x => k))
  (at level 61, r at next level, right associativity) : result_scope.
Notation "' p <- r ;; k" := (rbind r (fun x => let p := x in k))
  (at level 61, p pattern, r at next level, right associativity) : result_scope.

(** ** Collaborators

    What the classes outside [numerics.py] do.  [grid_new], [conv_new] and
    [point_source_new] run a constructor on its arguments: it accepts them or
    raises.  The three methods are functions of the object and the
    arguments: by section 3 of the specification Grid and Convolution
    objects are constructed once and immutable thereafter. *)
Record Collaborators : Type := {
  grid_new : Grid -> result unit;
  conv_new : Convolution -> result unit;
  point_source_new : PointSourceRendering -> result unit;
  grid_coordinates_evaluate : Grid -> list coordinate;
  grid_flux_array2image_low_high :
    Grid -> list R -> result (image * option image);
  conv_re_size_convolve : Convolution -> image -> option image -> result image
}.

(** Modelled from the spec: [util.fwhm2sigma] is in lenstronomy/Util/util.py,
    which lies outside the files covered here.  Section 4.2 gives
    sigma = FWHM / (2 sqrt(2 ln 2)). *)
Definition fwhm2sigma (fwhm : R) : R := (fwhm / (2 * sqrt (2 * ln 2)))%R.

(** ** numpy helpers *)

(** [np.zeros((nx, ny), dtype=bool)] *)
Definition zeros (nx ny : nat) : mask := repeat (repeat false ny) nx.

(** [array * scalar] on a 2d array *)
Definition image_scale (img : image) (c : R) : image :=
  map (map (fun x => (x * c)%R)) img.

(** ** The class Numerics *)

Record NumericsArgs : Type := {
  pixel_grid : PixelGrid;
  psf : PSF;
  supersampling_factor : Z;
  compute_mode : string;
  supersampling_convolution : bool;
  supersampling_kernel_size : Z;
  flux_evaluate_indexes : option mask;
  supersampled_indexes : option mask;
  compute_indexes : option mask;
  point_source_supersampling_factor : Z
}.

(** The keyword defaults of [__init__] (lines 13-15). *)
Definition default_args (pg : PixelGrid) (p : PSF) : NumericsArgs := {|
  pixel_grid := pg;
  psf := p;
  supersampling_factor := 1;
  compute_mode := "regular";
  supersampling_convolution := false;
  supersampling_kernel_size := 5;
  flux_evaluate_indexes := None;
  supersampled_indexes := None;
  compute_indexes := None;
  point_source_supersampling_factor := 1
|}.

Record Numerics : Type := {
  _psf_type : string;
  _pixel_width : R;
  _grid : Grid;
  _conv : option Convolution;
  _point_source : PointSourceRendering
}.

Definition psf_type_error (t : string) : error :=
  InvalidConfiguration
    ("psf_type " ++ t ++ " not valid! Chose either NONE, GAUSSIAN or PIXEL.").

Section WithCollaborators.

Variable C : Collaborators.

Definition new_grid (g : Grid) : result Grid :=
  rmap (fun _ => g) (grid_new C g).

Definition new_conv (c : Convolution) : result (option Convolution) :=
  rmap (fun _ => Some c) (conv_new C c).

Definition new_point_source (p : PointSourceRendering)
  : result PointSourceRendering :=
  rmap (fun _ => p) (point_source_new C p).

(** Lines 54-83: the convolution for a PSF type, a compute mode and the
    (already normalised) supersampling-convolution flag. *)
Definition select_conv (a : NumericsArgs) (_psf_type : string)
    (supersampling_convolution : bool) (supersampled_indexes : mask)
  : result (option Convolution) :=
  if _psf_type =? "PIXEL" then
    if (compute_mode a =? "adaptive") && supersampling_convolution then
      let kernel_super :=
        kernel_point_source_supersampled (psf a) (supersampling_factor a) in
      new_conv (AdaptiveConvolution kernel_super (supersampling_factor a)
                  supersampled_indexes (supersampling_kernel_size a)
                  (compute_indexes a) true true false)
    else if (compute_mode a =? "regular") && supersampling_convolution then
      let kernel_super :=
        kernel_point_source_supersampled (psf a) (supersampling_factor a) in
      new_conv (SubgridKernelConvolution kernel_super (supersampling_factor a)
                  (supersampling_kernel_size a) "fft")
    else
      let kernel := kernel_point_source (psf a) in
      new_conv (PixelKernelConvolution kernel "fft")
  else if _psf_type =? "GAUSSIAN" then
    let pixel_scale := pixel_width (pixel_grid a) in
    let fwhm := fwhm (psf a) in
    let sigma := fwhm2sigma fwhm in
    let sigma_list := [sigma] in
    let fraction_list := [1%Z] in
    new_conv (MultiGaussianConvolution sigma_list fraction_list pixel_scale
                (supersampling_factor a) supersampling_convolution 4)
  else if _psf_type =? "NONE" then
    Ok None
  else
    Err (psf_type_error _psf_type).

(** [Numerics.__init__] (lines 13-85). *)
Definition Numerics_init (a : NumericsArgs) : result Numerics :=
  let _psf_type := psf_type (psf a) in
  let supersampling_convolution :=
    if (supersampling_factor a =? 1)%Z then false
    else supersampling_convolution a in
  let _pixel_width := pixel_width (pixel_grid a) in
  let '(nx, ny) := num_pixel_axes (pixel_grid a) in
  let transform_pix2angle := transform_pix2angle (pixel_grid a) in
  let '(ra_at_xy_0, dec_at_xy_0) := radec_at_xy_0 (pixel_grid a) in
  let supersampled_indexes :=
    match supersampled_indexes a with
    | None => zeros nx ny
    | Some m => m
    end in
  (_grid <-
     (if compute_mode a =? "adaptive" then
        new_grid (AdaptiveGrid nx ny transform_pix2angle ra_at_xy_0 dec_at_xy_0
                    supersampled_indexes (supersampling_factor a)
                    (flux_evaluate_indexes a))
      else
        new_grid (RegularGrid nx ny transform_pix2angle ra_at_xy_0 dec_at_xy_0
                    (supersampling_factor a) (flux_evaluate_indexes a))) ;;
   _conv <- select_conv a _psf_type supersampling_convolution
              supersampled_indexes ;;
   base <- new_point_source
             {| psr_pixel_grid := pixel_grid a;
                psr_supersampling_factor := point_source_supersampling_factor a;
                psr_psf := psf a |} ;;
   Ok {| _psf_type := _psf_type;
         _pixel_width := _pixel_width;
         _grid := _grid;
         _conv := _conv;
         _point_source := base |})%result.

(** *** Methods

    A method runs on [self] and hands [self] back with its result, so that
    an assignment to an attribute would show. *)
Definition method (A : Type) : Type := Numerics -> result A * Numerics.

Definition mret {A : Type} (a : A) : method A := fun self => (Ok a, self).

Definition mraise {A : Type} (e : error) : method A :=
  fun self => (Err e, self).

Definition mbind {A B : Type} (m : method A) (k : A -> method B) : method B :=
  fun self =>
    match m self with
    | (Ok a, self') => k a self'
    | (Err e, self') => (Err e, self')
    end.

(** [self.attribute] *)
Definition attr {A : Type} (f : Numerics -> A) : method A :=
  fun self => (Ok (f self), self).

(** A call into a collaborator, which returns or raises. *)
Definition call {A : Type} (r : result A) : method A := fun self => (r, self).

Declare Scope method_scope.
Delimit Scope method_scope with method.
Notation "x <- m ;; k" := (mbind m (fun x => k))
  (at level 61, m at next level, right associativity) : method_scope.
Notation "' p <- m ;; k" := (mbind m (fun x => let p := x in k))
  (at level 61, p pattern, m at next level, right associativity) : method_scope.

(** [Numerics.re_size_convolve] (lines 87-101). *)
Definition re_size_convolve (flux_array : list R) (unconvolved : bool)
  : method image :=
  (grid <- attr _grid ;;
   '(image_low_res, image_high_res_partial) <-
      call (grid_flux_array2image_low_high C grid flux_array) ;;
   psf_type <- attr _psf_type ;;
   image_conv <-
     (if unconvolved || (psf_type =? "NONE") then
        mret image_low_res
      else
        conv <- attr _conv ;;
        match conv with
        | Some c =>
            call (conv_re_size_convolve C c image_low_res
                    image_high_res_partial)
        | None => mraise AttributeError
        end) ;;
   pw <- attr _pixel_width ;;
   mret (image_scale image_conv (pw ^ 2)))%method.

(** [Numerics.coordinates_evaluate] (lines 103-109). *)
Definition coordinates_evaluate : method (list coordinate) :=
  (grid <- attr _grid ;;
   mret (grid_coordinates_evaluate C grid))%method.

End WithCollaborators.

(** A run of method calls on one object: each call gets the object the call
    before it left behind. *)
Inductive request : Type :=
| CoordinatesEvaluate
| ReSizeConvolve (flux_array : list R) (unconvolved : bool).

Inductive reply : Type :=
| Coordinates (r : result (list coordinate))
| Image (r : result image).

Definition serve (C : Collaborators) (q : request) (self : Numerics)
  : reply * Numerics :=
  match q with
  | CoordinatesEvaluate =>
      let '(r, self') := coordinates_evaluate C self in (Coordinates r, self')
  | ReSizeConvolve flux_array unconvolved =>
      let '(r, self') := re_size_convolve C flux_array unconvolved self in
      (Image r, self')
  end.

Fixpoint serve_all (C : Collaborators) (qs : list request) (self : Numerics)
  : list reply * Numerics :=
  match qs with
  | [] => ([], self)
  | q :: qs' =>
      let '(r, self') := serve C q self in
      let '(rs, self'') := serve_all C qs' self' in
      (r :: rs, self'')
  end.

(** ** The grid classes *)

(** Modelled from the spec: lenstronomy/ImSim/Numerics/grid.py (RegularGrid
    and AdaptiveGrid) lies outside the files covered here.  What follows is
    sections 3, 4.1 and 7 of the specification:
    - a mask is sized exactly (nx, ny), and one that is not is an
      [InvalidConfiguration] raised at construction;
    - Regular: every pixel contributes s x s sub-coordinates; reassembly
      averages the sub-samples of a pixel into its low-resolution cell and
      the flux_evaluate mask zeroes the excluded pixels afterwards;
    - Adaptive: the pixels flagged in supersampled are expanded into s x s
      sub-coordinates, all other flagged-evaluate pixels use one coordinate
      each; the sequence is the low-resolution coordinates followed by the
      high-resolution ones, and reassembly routes each sample back in that
      order;
    - a supersampling factor of 1 gives no separate high-resolution image;
    - [flux_array2image_low_high] fails with [ShapeMismatch] if the length
      of the flux array is not that of [coordinates_evaluate]. *)
Module GridModel.

Local Open Scope nat_scope.

Definition mask_at (m : mask) (p : nat * nat) : bool :=
  nth (snd p) (nth (fst p) m []) false.

Definition has_shape (nx ny : nat) (m : mask) : bool :=
  (List.length m =? nx) && forallb (fun row => List.length row =? ny) m.

Definition opt_has_shape (nx ny : nat) (m : option mask) : bool :=
  match m with
  | None => true
  | Some m' => has_shape nx ny m'
  end.

(** The flux_evaluate mask; [None] stands for a grid of True's. *)
Definition evaluated (m : option mask) (p : nat * nat) : bool :=
  match m with
  | None => true
  | Some m' => mask_at m' p
  end.

(** Pixel indices of an (nx, ny) array, row by row. *)
Definition pixels (nx ny : nat) : list (nat * nat) :=
  flat_map (fun i => map (fun j => (i, j)) (seq 0 ny)) (seq 0 nx).

Definition mask_error : error :=
  InvalidConfiguration "mask shape does not match the pixel grid".

(** Modelled from the spec: the constructors of RegularGrid and AdaptiveGrid
    (grid.py).  Sections 3 and 7: a mask is sized exactly (nx, ny), and a
    mask shape that does not match the pixel-grid dimensions is an
    [InvalidConfiguration] raised at construction.  A grid constructor
    checks the masks it is given. *)
Definition grid_new (g : Grid) : result unit :=
  match g with
  | AdaptiveGrid nx ny _ _ _ supersampled _ flux_evaluate =>
      if has_shape nx ny supersampled && opt_has_shape nx ny flux_evaluate
      then Ok tt else Err mask_error
  | RegularGrid nx ny _ _ _ _ flux_evaluate =>
      if opt_has_shape nx ny flux_evaluate then Ok tt else Err mask_error
  end.

(** Modelled from the spec: section 3, the affine transform from pixel index
    to sky angle and the sky-angle origin of the pixel grid. *)
Definition pix2angle (T : (R * R) * (R * R)) (ra0 dec0 x y : R) : coordinate :=
  ((ra0 + fst (fst T) * x + snd (fst T) * y)%R,
   (dec0 + fst (snd T) * x + snd (snd T) * y)%R).

(** Modelled from the spec: section 4.1, one uniform resolution of [s]
    sub-samples along an axis.  Position of sub-sample [a] along one axis of
    pixel [i], the pixel centre being at index [i]. *)
Definition sub_position (s i a : nat) : R :=
  (INR i + (INR a + 1 / 2) / INR s - 1 / 2)%R.

Definition sub_coordinates (T : (R * R) * (R * R)) (ra0 dec0 : R) (s : nat)
    (p : nat * nat) : list coordinate :=
  map (fun q => pix2angle T ra0 dec0 (sub_position s (fst p) (fst q))
                  (sub_position s (snd p) (snd q)))
      (pixels s s).

(** Modelled from the spec: section 4.1, Adaptive: pixels flagged in
    supersampled are expanded, "all other flagged-evaluate pixels use one
    coordinate each". *)
Definition low_res_pixel (supersampled : mask) (flux_evaluate : option mask)
    (p : nat * nat) : bool :=
  evaluated flux_evaluate p && negb (mask_at supersampled p).

(** Modelled from the spec: [coordinates_evaluate] of RegularGrid and
    AdaptiveGrid (grid.py), section 4.1.  Regular: each pixel contributes
    s x s sub-coordinates.  Adaptive: the low-resolution coordinates
    followed by the sub-coordinates of the supersampled pixels. *)
Definition coordinates_evaluate (g : Grid) : list coordinate :=
  match g with
  | RegularGrid nx ny T ra0 dec0 s _ =>
      flat_map (sub_coordinates T ra0 dec0 (Z.to_nat s)) (pixels nx ny)
  | AdaptiveGrid nx ny T ra0 dec0 supersampled s flux_evaluate =>
      flat_map (sub_coordinates T ra0 dec0 1)
        (filter (low_res_pixel supersampled flux_evaluate) (pixels nx ny))
      ++ flat_map (sub_coordinates T ra0 dec0 (Z.to_nat s))
           (filter (mask_at supersampled) (pixels nx ny))
  end.

(** Cut a sequence into consecutive pieces of the given lengths. *)
Fixpoint take_chunks (counts : list nat) (xs : list R) : list (list R) :=
  match counts with
  | [] => []
  | n :: counts' => firstn n xs :: take_chunks counts' (skipn n xs)
  end.

(** Modelled from the spec: section 4.1, reassembly averages the sub-samples
    into the low-resolution cell.  A pixel without samples is zero. *)
Definition cell_value (samples : list R) : R :=
  match samples with
  | [] => 0%R
  | _ => (fold_right Rplus 0 samples / INR (List.length samples))%R
  end.

(** Modelled from the spec: section 4.1, reassembly routes each flux sample
    back to its originating pixel using the order of the coordinate
    sequence.  The samples that belong to each pixel, in the order of
    [pixels]: its low-resolution sample, if it has one, and its
    sub-samples. *)
Definition samples_per_pixel (g : Grid) (flux_array : list R)
  : list (list R * list R) :=
  match g with
  | RegularGrid nx ny _ _ _ s _ =>
      map (fun sub => ([], sub))
        (take_chunks (map (fun _ => Z.to_nat s * Z.to_nat s) (pixels nx ny))
           flux_array)
  | AdaptiveGrid nx ny _ _ _ supersampled s flux_evaluate =>
      let low p := low_res_pixel supersampled flux_evaluate p in
      let n_low := List.length (filter low (pixels nx ny)) in
      let lows :=
        take_chunks (map (fun p => if low p then 1 else 0) (pixels nx ny))
          (firstn n_low flux_array) in
      let highs :=
        take_chunks
          (map (fun p => if mask_at supersampled p
                         then Z.to_nat s * Z.to_nat s else 0) (pixels nx ny))
          (skipn n_low flux_array) in
      combine lows highs
  end.

(** Modelled from the spec: section 4.1, Regular: the flux_evaluate mask
    zeroes the excluded pixels post-hoc. *)
Definition kept (g : Grid) (p : nat * nat) : bool :=
  match g with
  | RegularGrid _ _ _ _ _ _ flux_evaluate => evaluated flux_evaluate p
  | AdaptiveGrid _ _ _ _ _ _ _ _ => true
  end.

Definition grid_shape (g : Grid) : nat * nat * nat :=
  match g with
  | RegularGrid nx ny _ _ _ s _ => (nx, ny, Z.to_nat s)
  | AdaptiveGrid nx ny _ _ _ _ s _ => (nx, ny, Z.to_nat s)
  end.

(** Modelled from the spec: section 3, the low-resolution image (nx x ny). *)
Definition image_low_res (g : Grid) (samples : list (list R * list R))
  : image :=
  let '(nx, ny, _) := grid_shape g in
  map (fun i =>
         map (fun j =>
                let own := nth (i * ny + j) samples ([], []) in
                if kept g (i, j)
                then cell_value (fst own ++ snd own)
                else 0%R)
             (seq 0 ny))
      (seq 0 nx).

(** Modelled from the spec: sections 3 and 4.1, the high-resolution partial
    image, restricted to the sub-sampled pixels; a supersampling factor of 1
    gives no separate high-resolution image. *)
Definition image_high_res (g : Grid) (samples : list (list R * list R))
  : option image :=
  let '(nx, ny, s) := grid_shape g in
  if s =? 1 then None
  else
    Some (map (fun r =>
                 map (fun c =>
                        let own := nth ((r / s) * ny + c / s) samples ([], []) in
                        if kept g (r / s, c / s)
                        then nth ((r mod s) * s + c mod s) (snd own) 0%R
                        else 0%R)
                     (seq 0 (ny * s)))
              (seq 0 (nx * s))).

(** Modelled from the spec: [flux_array2image_low_high] of RegularGrid and
    AdaptiveGrid (grid.py), section 4.1: flux_array -> (low-res image,
    high-res partial image); fails with [ShapeMismatch] if
    len(flux_array) != len(coordinates_evaluate). *)
Definition flux_array2image_low_high (g : Grid) (flux_array : list R)
  : result (image * option image) :=
  if List.length flux_array =? List.length (coordinates_evaluate g) then
    let samples := samples_per_pixel g flux_array in
    Ok (image_low_res g samples, image_high_res g samples)
  else Err ShapeMismatch.

End GridModel.

(** Modelled from the spec: the convolution classes (convolution.py,
    adaptive_numerics.py) and PointSourceRendering lie outside the files
    covered here.  Section 4.2 gives a convolution the contract
    image_low_res, image_high_res_partial -> one blurred image, and the
    error taxonomy of section 7 names no failure of their constructors.  The
    arithmetic of the blur is left open: it is the parameter [blur]. *)
Definition spec_collaborators
    (blur : Convolution -> image -> option image -> image) : Collaborators := {|
  grid_new := GridModel.grid_new;
  conv_new := fun _ => Ok tt;
  point_source_new := fun _ => Ok tt;
  grid_coordinates_evaluate := GridModel.coordinates_evaluate;
  grid_flux_array2image_low_high := GridModel.flux_array2image_low_high;
  conv_re_size_convolve := fun c lo hi => Ok (blur c lo hi)
|}.

(** ** What the constructor computes before it builds anything *)

(** Lines 40-41: the supersampling-convolution flag in force. *)
Definition effective_supersampling_convolution (a : NumericsArgs) : bool :=
  if (supersampling_factor a =? 1)%Z then false
  else supersampling_convolution a.

(** Lines 46-47: the supersampled mask in force. *)
Definition effective_supersampled_indexes (a : NumericsArgs) : mask :=
  match supersampled_indexes a with
  | None => zeros (fst (num_pixel_axes (pixel_grid a)))
              (snd (num_pixel_axes (pixel_grid a)))
  | Some m => m
  end.

(** Lines 48-53: the grid constructor call. *)
Definition grid_call (a : NumericsArgs) : Grid :=
  let pg := pixel_grid a in
  if compute_mode a =? "adaptive" then
    AdaptiveGrid (fst (num_pixel_axes pg)) (snd (num_pixel_axes pg))
      (transform_pix2angle pg) (fst (radec_at_xy_0 pg))
      (snd (radec_at_xy_0 pg)) (effective_supersampled_indexes a)
      (supersampling_factor a) (flux_evaluate_indexes a)
  else
    RegularGrid (fst (num_pixel_axes pg)) (snd (num_pixel_axes pg))
      (transform_pix2angle pg) (fst (radec_at_xy_0 pg))
      (snd (radec_at_xy_0 pg)) (supersampling_factor a)
      (flux_evaluate_indexes a).

(** Lines 84-85: the base class constructor call. *)
Definition point_source_call (a : NumericsArgs) : PointSourceRendering :=
  {| psr_pixel_grid := pixel_grid a;
     psr_supersampling_factor := point_source_supersampling_factor a;
     psr_psf := psf a |}.

(** Keyword arguments replaced in a call. *)
Definition with_compute_mode (a : NumericsArgs) (m : string) : NumericsArgs :=
  {| pixel_grid := pixel_grid a;
     psf := psf a;
     supersampling_factor := supersampling_factor a;
     compute_mode := m;
     supersampling_convolution := supersampling_convolution a;
     supersampling_kernel_size := supersampling_kernel_size a;
     flux_evaluate_indexes := flux_evaluate_indexes a;
     supersampled_indexes := supersampled_indexes a;
     compute_indexes := compute_indexes a;
     point_source_supersampling_factor := point_source_supersampling_factor a |}.

Definition with_supersampling_convolution (a : NumericsArgs) (b : bool)
  : NumericsArgs :=
  {| pixel_grid := pixel_grid a;
     psf := psf a;
     supersampling_factor := supersampling_factor a;
     compute_mode := compute_mode a;
     supersampling_convolution := b;
     supersampling_kernel_size := supersampling_kernel_size a;
     flux_evaluate_indexes := flux_evaluate_indexes a;
     supersampled_indexes := supersampled_indexes a;
     compute_indexes := compute_indexes a;
     point_source_supersampling_factor := point_source_supersampling_factor a |}.

Definition with_supersampled_indexes (a : NumericsArgs) (m : option mask)
  : NumericsArgs :=
  {| pixel_grid := pixel_grid a;
     psf := psf a;
     supersampling_factor := supersampling_factor a;
     compute_mode := compute_mode a;
     supersampling_convolution := supersampling_convolution a;
     supersampling_kernel_size := supersampling_kernel_size a;
     flux_evaluate_indexes := flux_evaluate_indexes a;
     supersampled_indexes := m;
     compute_indexes := compute_indexes a;
     point_source_supersampling_factor := point_source_supersampling_factor a |}.

Definition with_compute_indexes (a : NumericsArgs) (m : option mask)
  : NumericsArgs :=
  {| pixel_grid := pixel_grid a;
     psf := psf a;
     supersampling_factor := supersampling_factor a;
     compute_mode := compute_mode a;
     supersampling_convolution := supersampling_convolution a;
     supersampling_kernel_size := supersampling_kernel_size a;
     flux_evaluate_indexes := flux_evaluate_indexes a;
     supersampled_indexes := supersampled_indexes a;
     compute_indexes := m;
     point_source_supersampling_factor := point_source_supersampling_factor a |}.

(** The PSF types the constructor knows. *)
Definition known_psf_type (t : string) : bool :=
  (t =? "PIXEL") || (t =? "GAUSSIAN") || (t =? "NONE").

(** Whether a convolution object works on the supersampled grid. *)
Definition convolves_supersampled (c : Convolution) : bool :=
  match c with
  | AdaptiveConvolution _ _ _ _ _ _ _ _ => true
  | SubgridKernelConvolution _ _ _ _ => true
  | PixelKernelConvolution _ _ => false
  | MultiGaussianConvolution _ _ _ _ supersampling_convolution _ =>
      supersampling_convolution
  end.

(** ** Sample inputs *)

Definition example_pixel_grid : PixelGrid :=
  {| pixel_width := 0.1;
     num_pixel_axes := (10, 10)%nat;
     transform_pix2angle := ((0.1, 0), (0, 0.1))%R;
     radec_at_xy_0 := (0, 0)%R |}.

Definition example_psf (t : string) : PSF :=
  {| psf_type := t;
     fwhm := 0.2;
     kernel_point_source := [[1%R]];
     kernel_point_source_supersampled := fun _ => [[1%R]] |}.

(** A 1 x 1 mask: not the shape of the 10 x 10 sample grid. *)
Definition small_mask : mask := [[true]].

(** A blur that hands the low-resolution image back, to run the examples. *)
Definition no_blur (c : Convolution) (lo : image) (hi : option image) : image :=
  lo.

Definition example_collaborators : Collaborators := spec_collaborators no_blur.

(** ** What a grid and a convolution were built with *)

(** The supersampling factor a grid was constructed with. *)
Definition grid_supersampling_factor (g : Grid) : Z :=
  match g with
  | AdaptiveGrid _ _ _ _ _ _ supersampling_factor _ => supersampling_factor
  | RegularGrid _ _ _ _ _ supersampling_factor _ => supersampling_factor
  end.

(** The supersampled mask of an adaptive grid. *)
Definition grid_supersampled_indexes (g : Grid) : option mask :=
  match g with
  | AdaptiveGrid _ _ _ _ _ supersampled_indexes _ _ => Some supersampled_indexes
  | RegularGrid _ _ _ _ _ _ _ => None
  end.

(** The supersampling factor a convolution was constructed with, for the
    classes that take one. *)
Definition conv_supersampling_factor (c : Convolution) : option Z :=
  match c with
  | AdaptiveConvolution _ supersampling_factor _ _ _ _ _ _ =>
      Some supersampling_factor
  | SubgridKernelConvolution _ supersampling_factor _ _ =>
      Some supersampling_factor
  | PixelKernelConvolution _ _ => None
  | MultiGaussianConvolution _ _ _ supersampling_factor _ _ =>
      Some supersampling_factor
  end.

(** The mask of supersampled pixels of an adaptive convolution. *)
Definition conv_supersample_pixels (c : Convolution) : option mask :=
  match c with
  | AdaptiveConvolution _ _ conv_supersample_pixels _ _ _ _ _ =>
      Some conv_supersample_pixels
  | _ => None
  end.

(** * The class Numerics over binary64

    numpy's float64 is the IEEE 754 binary64 format, and so is the kernel's
    type [float], with the same operations rounded to nearest.  This module
    is the embedding above with [float] where that one has [R]: the same
    constructor, the same two methods and the same grid model, for
    statements about the numbers a run computes rather than the real numbers
    they stand for.  A decimal literal is the binary64 number nearest to it,
    as in Python: [0.1] is 0x1.999999999999ap-4 and [0.01] is
    0x1.47ae147ae147bp-7. *)
Module Binary64.

Import PrimFloat.

#[local] Set Warnings "-inexact-float".

(** ** Data *)

Definition image : Type := list (list float).
Definition coordinate : Type := (float * float)%type.

(** [PixelGrid()] instance: the attributes the constructor reads. *)
Record PixelGrid : Type := {
  pixel_width : float;
  num_pixel_axes : nat * nat;
  transform_pix2angle : (float * float) * (float * float);
  radec_at_xy_0 : float * float
}.

(** [PSF()] instance: the attributes and the method the constructor reads. *)
Record PSF : Type := {
  psf_type : string;
  fwhm : float;
  kernel_point_source : image;
  kernel_point_source_supersampled : Z -> image
}.

(** The two grid classes, as their constructor calls (lines 49-53). *)
Inductive Grid : Type :=
| AdaptiveGrid (nx ny : nat) (transform : (float * float) * (float * float))
    (ra_at_xy_0 dec_at_xy_0 : float) (supersampled_indexes : mask)
    (supersampling_factor : Z) (flux_evaluate_indexes : option mask)
| RegularGrid (nx ny : nat) (transform : (float * float) * (float * float))
    (ra_at_xy_0 dec_at_xy_0 : float)
    (supersampling_factor : Z) (flux_evaluate_indexes : option mask).

(** The four convolution classes, as their constructor calls (lines 58-79). *)
Inductive Convolution : Type :=
| AdaptiveConvolution (kernel_super : image) (supersampling_factor : Z)
    (conv_supersample_pixels : mask) (supersampling_kernel_size : Z)
    (compute_pixels : option mask) (nopython cache parallel : bool)
| SubgridKernelConvolution (kernel_super : image) (supersampling_factor : Z)
    (supersampling_kernel_size : Z) (convolution_type : string)
| PixelKernelConvolution (kernel : image) (convolution_type : string)
| MultiGaussianConvolution (sigma_list : list float) (fraction_list : list Z)
    (pixel_scale : float) (supersampling_factor : Z)
    (supersampling_convolution : bool) (truncation : Z).

(** The base class part of a [Numerics] object, as the [super().__init__]
    call of lines 84-85. *)
Record PointSourceRendering : Type := {
  psr_pixel_grid : PixelGrid;
  psr_supersampling_factor : Z;
  psr_psf : PSF
}.

(** What the classes and helpers outside [numerics.py] do.
    [util_fwhm2sigma] is [util.fwhm2sigma] (lenstronomy/Util/util.py): it
    takes a logarithm, which is not an operation of binary64, so it is
    supplied with the collaborators. *)
Record Collaborators : Type := {
  grid_new : Grid -> result unit;
  conv_new : Convolution -> result unit;
  point_source_new : PointSourceRendering -> result unit;
  grid_coordinates_evaluate : Grid -> list coordinate;
  grid_flux_array2image_low_high :
    Grid -> list float -> result (image * option image);
  conv_re_size_convolve : Convolution -> image -> option image -> result image;
  util_fwhm2sigma : float -> float
}.

(** ** numpy helpers *)

(** [x ** 2] on a float: the square of [x] rounded to nearest, which is the
    product [x * x]. *)
Definition square (x : float) : float := PrimFloat.mul x x.

(** [array * scalar] on a 2d array *)
Definition image_scale (img : image) (c : float) : image :=
  map (map (fun x => PrimFloat.mul x c)) img.

(** ** The class Numerics *)

Record NumericsArgs : Type := {
  pixel_grid : PixelGrid;
  psf : PSF;
  supersampling_factor : Z;
  compute_mode : string;
  supersampling_convolution : bool;
  supersampling_kernel_size : Z;
  flux_evaluate_indexes : option mask;
  supersampled_indexes : option mask;
  compute_indexes : option mask;
  point_source_supersampling_factor : Z
}.

(** The keyword defaults of [__init__] (lines 13-15). *)
Definition default_args (pg : PixelGrid) (p : PSF) : NumericsArgs := {|
  pixel_grid := pg;
  psf := p;
  supersampling_factor := 1;
  compute_mode := "regular";
  supersampling_convolution := false;
  supersampling_kernel_size := 5;
  flux_evaluate_indexes := None;
  supersampled_indexes := None;
  compute_indexes := None;
  point_source_supersampling_factor := 1
|}.

Record Numerics : Type := {
  _psf_type : string;
  _pixel_width : float;
  _grid : Grid;
  _conv : option Convolution;
  _point_source : PointSourceRendering
}.

Section WithCollaborators.

Variable C : Collaborators.

Definition new_grid (g : Grid) : result Grid :=
  rmap (fun _ => g) (grid_new C g).

Definition new_conv (c : Convolution) : result (option Convolution) :=
  rmap (fun _ => Some c) (conv_new C c).

Definition new_point_source (p : PointSourceRendering)
  : result PointSourceRendering :=
  rmap (fun _ => p) (point_source_new C p).

(** Lines 54-83: the convolution for a PSF type, a compute mode and the
    (already normalised) supersampling-convolution flag. *)
Definition select_conv (a : NumericsArgs) (_psf_type : string)
    (supersampling_convolution : bool) (supersampled_indexes : mask)
  : result (option Convolution) :=
  if _psf_type =? "PIXEL" then
    if (compute_mode a =? "adaptive") && supersampling_convolution then
      let kernel_super :=
        kernel_point_source_supersampled (psf a) (supersampling_factor a) in
      new_conv (AdaptiveConvolution kernel_super (supersampling_factor a)
                  supersampled_indexes (supersampling_kernel_size a)
                  (compute_indexes a) true true false)
    else if (compute_mode a =? "regular") && supersampling_convolution then
      let kernel_super :=
        kernel_point_source_supersampled (psf a) (supersampling_factor a) in
      new_conv (SubgridKernelConvolution kernel_super (supersampling_factor a)
                  (supersampling_kernel_size a) "fft")
    else
      let kernel := kernel_point_source (psf a) in
      new_conv (PixelKernelConvolution kernel "fft")
  else if _psf_type =? "GAUSSIAN" then
    let pixel_scale := pixel_width (pixel_grid a) in
    let fwhm := fwhm (psf a) in
    let sigma := util_fwhm2sigma C fwhm in
    let sigma_list := [sigma] in
    let fraction_list := [1%Z] in
    new_conv (MultiGaussianConvolution sigma_list fraction_list pixel_scale
                (supersampling_factor a) supersampling_convolution 4)
  else if _psf_type =? "NONE" then
    Ok None
  else
    Err (psf_type_error _psf_type).

(** [Numerics.__init__] (lines 13-85). *)
Definition Numerics_init (a : NumericsArgs) : result Numerics :=
  let _psf_type := psf_type (psf a) in
  let supersampling_convolution :=
    if (supersampling_factor a =? 1)%Z then false
    else supersampling_convolution a in
  let _pixel_width := pixel_width (pixel_grid a) in
  let '(nx, ny) := num_pixel_axes (pixel_grid a) in
  let transform_pix2angle := transform_pix2angle (pixel_grid a) in
  let '(ra_at_xy_0, dec_at_xy_0) := radec_at_xy_0 (pixel_grid a) in
  let supersampled_indexes :=
    match supersampled_indexes a with
    | None => zeros nx ny
    | Some m => m
    end in
  (_grid <-
     (if compute_mode a =? "adaptive" then
        new_grid (AdaptiveGrid nx ny transform_pix2angle ra_at_xy_0 dec_at_xy_0
                    supersampled_indexes (supersampling_factor a)
                    (flux_evaluate_indexes a))
      else
        new_grid (RegularGrid nx ny transform_pix2angle ra_at_xy_0 dec_at_xy_0
                    (supersampling_factor a) (flux_evaluate_indexes a))) ;;
   _conv <- select_conv a _psf_type supersampling_convolution
              supersampled_indexes ;;
   base <- new_point_source
             {| psr_pixel_grid := pixel_grid a;
                psr_supersampling_factor := point_source_supersampling_factor a;
                psr_psf := psf a |} ;;
   Ok {| _psf_type := _psf_type;
         _pixel_width := _pixel_width;
         _grid := _grid;
         _conv := _conv;
         _point_source := base |})%result.

(** *** Methods *)

Definition method (A : Type) : Type := Numerics -> result A * Numerics.

Definition mret {A : Type} (a : A) : method A := fun self => (Ok a, self).

Definition mraise {A : Type} (e : error) : method A :=
  fun self => (Err e, self).

Definition mbind {A B : Type} (m : method A) (k : A -> method B) : method B :=
  fun self =>
    match m self with
    | (Ok a, self') => k a self'
    | (Err e, self') => (Err e, self')
    end.

(** [self.attribute] *)
Definition attr {A : Type} (f : Numerics -> A) : method A :=
  fun self => (Ok (f self), self).

(** A call into a collaborator, which returns or raises. *)
Definition call {A : Type} (r : result A) : method A := fun self => (r, self).

Declare Scope method_scope.
Delimit Scope method_scope with method.
Notation "x <- m ;; k" := (mbind m (fun x => k))
  (at level 61, m at next level, right associativity) : method_scope.
Notation "' p <- m ;; k" := (mbind m (fun x => let p := x in k))
  (at level 61, p pattern, m at next level, right associativity) : method_scope.

(** [Numerics.re_size_convolve] (lines 87-101). *)
Definition re_size_convolve (flux_array : list float) (unconvolved : bool)
  : method image :=
  (grid <- attr _grid ;;
   '(image_low_res, image_high_res_partial) <-
      call (grid_flux_array2image_low_high C grid flux_array) ;;
   psf_type <- attr _psf_type ;;
   image_conv <-
     (if unconvolved || (psf_type =? "NONE") then
        mret image_low_res
      else
        conv <- attr _conv ;;
        match conv with
        | Some c =>
            call (conv_re_size_convolve C c image_low_res
                    image_high_res_partial)
        | None => mraise AttributeError
        end) ;;
   pw <- attr _pixel_width ;;
   mret (image_scale image_conv (square pw)))%method.

(** [Numerics.coordinates_evaluate] (lines 103-109). *)
Definition coordinates_evaluate : method (list coordinate) :=
  (grid <- attr _grid ;;
   mret (grid_coordinates_evaluate C grid))%method.

End WithCollaborators.

(** ** The grid classes *)

(** Modelled from the spec: lenstronomy/ImSim/Numerics/grid.py (RegularGrid
    and AdaptiveGrid) lies outside the files covered here.  What follows is
    sections 3, 4.1 and 7 of the specification, as in [GridModel] above, on
    binary64 samples: the masks, the pixel order and the routing of the
    samples are those of [GridModel]; the average of the samples of a pixel
    is their sum divided by their number, in binary64. *)
Module GridModel.

Local Open Scope nat_scope.

(** [float(n)] for a count of pixels or samples. *)
Definition float_of_nat (n : nat) : float :=
  PrimFloat.of_uint63 (Uint63.of_Z (Z.of_nat n)).

(** Modelled from the spec: the constructors of RegularGrid and AdaptiveGrid
    (grid.py).  Sections 3 and 7: a mask is sized exactly (nx, ny), and a
    mask shape that does not match the pixel-grid dimensions is an
    [InvalidConfiguration] raised at construction. *)
Definition grid_new (g : Grid) : result unit :=
  match g with
  | AdaptiveGrid nx ny _ _ _ supersampled _ flux_evaluate =>
      if GridModel.has_shape nx ny supersampled
         && GridModel.opt_has_shape nx ny flux_evaluate
      then Ok tt else Err GridModel.mask_error
  | RegularGrid nx ny _ _ _ _ flux_evaluate =>
      if GridModel.opt_has_shape nx ny flux_evaluate
      then Ok tt else Err GridModel.mask_error
  end.

(** Modelled from the spec: section 3, the affine transform from pixel index
    to sky angle and the sky-angle origin of the pixel grid. *)
Definition pix2angle (T : (float * float) * (float * float))
    (ra0 dec0 x y : float) : coordinate :=
  ((ra0 + fst (fst T) * x + snd (fst T) * y)%float,
   (dec0 + fst (snd T) * x + snd (snd T) * y)%float).

(** Modelled from the spec: section 4.1, one uniform resolution of [s]
    sub-samples along an axis.  Position of sub-sample [a] along one axis of
    pixel [i], the pixel centre being at index [i]. *)
Definition sub_position (s i a : nat) : float :=
  (float_of_nat i + (float_of_nat a + 1 / 2) / float_of_nat s - 1 / 2)%float.

Definition sub_coordinates (T : (float * float) * (float * float))
    (ra0 dec0 : float) (s : nat) (p : nat * nat) : list coordinate :=
  map (fun q => pix2angle T ra0 dec0 (sub_position s (fst p) (fst q))
                  (sub_position s (snd p) (snd q)))
      (GridModel.pixels s s).

(** Modelled from the spec: [coordinates_evaluate] of RegularGrid and
    AdaptiveGrid (grid.py), section 4.1.  Regular: each pixel contributes
    s x s sub-coordinates.  Adaptive: the low-resolution coordinates
    followed by the sub-coordinates of the supersampled pixels. *)
Definition coordinates_evaluate (g : Grid) : list coordinate :=
  match g with
  | RegularGrid nx ny T ra0 dec0 s _ =>
      flat_map (sub_coordinates T ra0 dec0 (Z.to_nat s))
        (GridModel.pixels nx ny)
  | AdaptiveGrid nx ny T ra0 dec0 supersampled s flux_evaluate =>
      flat_map (sub_coordinates T ra0 dec0 1)
        (filter (GridModel.low_res_pixel supersampled flux_evaluate)
           (GridModel.pixels nx ny))
      ++ flat_map (sub_coordinates T ra0 dec0 (Z.to_nat s))
           (filter (GridModel.mask_at supersampled) (GridModel.pixels nx ny))
  end.

(** Cut a sequence into consecutive pieces of the given lengths. *)
Fixpoint take_chunks (counts : list nat) (xs : list float)
  : list (list float) :=
  match counts with
  | [] => []
  | n :: counts' => firstn n xs :: take_chunks counts' (skipn n xs)
  end.

(** Modelled from the spec: section 4.1, reassembly averages the sub-samples
    into the low-resolution cell.  A pixel without samples is zero. *)
Definition cell_value (samples : list float) : float :=
  match samples with
  | [] => 0%float
  | _ => (fold_right PrimFloat.add 0 samples
          / float_of_nat (List.length samples))%float
  end.

(** Modelled from the spec: section 4.1, reassembly routes each flux sample
    back to its originating pixel using the order of the coordinate
    sequence. *)
Definition samples_per_pixel (g : Grid) (flux_array : list float)
  : list (list float * list float) :=
  match g with
  | RegularGrid nx ny _ _ _ s _ =>
      map (fun sub => ([], sub))
        (take_chunks
           (map (fun _ => Z.to_nat s * Z.to_nat s) (GridModel.pixels nx ny))
           flux_array)
  | AdaptiveGrid nx ny _ _ _ supersampled s flux_evaluate =>
      let low p := GridModel.low_res_pixel supersampled flux_evaluate p in
      let n_low := List.length (filter low (GridModel.pixels nx ny)) in
      let lows :=
        take_chunks
          (map (fun p => if low p then 1 else 0) (GridModel.pixels nx ny))
          (firstn n_low flux_array) in
      let highs :=
        take_chunks
          (map (fun p => if GridModel.mask_at supersampled p
                         then Z.to_nat s * Z.to_nat s else 0)
             (GridModel.pixels nx ny))
          (skipn n_low flux_array) in
      combine lows highs
  end.

(** Modelled from the spec: section 4.1, Regular: the flux_evaluate mask
    zeroes the excluded pixels post-hoc. *)
Definition kept (g : Grid) (p : nat * nat) : bool :=
  match g with
  | RegularGrid _ _ _ _ _ _ flux_evaluate =>
      GridModel.evaluated flux_evaluate p
  | AdaptiveGrid _ _ _ _ _ _ _ _ => true
  end.

Definition grid_shape (g : Grid) : nat * nat * nat :=
  match g with
  | RegularGrid nx ny _ _ _ s _ => (nx, ny, Z.to_nat s)
  | AdaptiveGrid nx ny _ _ _ _ s _ => (nx, ny, Z.to_nat s)
  end.

(** Modelled from the spec: section 3, the low-resolution image (nx x ny). *)
Definition image_low_res (g : Grid) (samples : list (list float * list float))
  : image :=
  let '(nx, ny, _) := grid_shape g in
  map (fun i =>
         map (fun j =>
                let own := nth (i * ny + j) samples ([], []) in
                if kept g (i, j)
                then cell_value (fst own ++ snd own)
                else 0%float)
             (seq 0 ny))
      (seq 0 nx).

(** Modelled from the spec: sections 3 and 4.1, the high-resolution partial
    image, restricted to the sub-sampled pixels; a supersampling factor of 1
    gives no separate high-resolution image. *)
Definition image_high_res (g : Grid) (samples : list (list float * list float))
  : option image :=
  let '(nx, ny, s) := grid_shape g in
  if s =? 1 then None
  else
    Some (map (fun r =>
                 map (fun c =>
                        let own := nth ((r / s) * ny + c / s) samples ([], []) in
                        if kept g (r / s, c / s)
                        then nth ((r mod s) * s + c mod s) (snd own) 0%float
                        else 0%float)
                     (seq 0 (ny * s)))
              (seq 0 (nx * s))).

(** Modelled from the spec: [flux_array2image_low_high] of RegularGrid and
    AdaptiveGrid (grid.py), section 4.1: flux_array -> (low-res image,
    high-res partial image); fails with [ShapeMismatch] if
    len(flux_array) != len(coordinates_evaluate). *)
Definition flux_array2image_low_high (g : Grid) (flux_array : list float)
  : result (image * option image) :=
  if List.length flux_array =? List.length (coordinates_evaluate g) then
    let samples := samples_per_pixel g flux_array in
    Ok (image_low_res g samples, image_high_res g samples)
  else Err ShapeMismatch.

End GridModel.

(** Modelled from the spec: the convolution classes, PointSourceRendering
    and [util.fwhm2sigma] lie outside the files covered here.  As in
    [spec_collaborators] above their constructors accept every call; the
    arithmetic of the blur and of the width conversion is left open: they
    are the parameters [blur] and [fwhm2sigma]. *)
Definition spec_collaborators
    (blur : Convolution -> image -> option image -> image)
    (fwhm2sigma : float -> float) : Collaborators := {|
  grid_new := GridModel.grid_new;
  conv_new := fun _ => Ok tt;
  point_source_new := fun _ => Ok tt;
  grid_coordinates_evaluate := GridModel.coordinates_evaluate;
  grid_flux_array2image_low_high := GridModel.flux_array2image_low_high;
  conv_re_size_convolve := fun c lo hi => Ok (blur c lo hi);
  util_fwhm2sigma := fwhm2sigma
|}.

(** ** Sample inputs *)

Definition example_pixel_grid : PixelGrid :=
  {| pixel_width := 0.1;
     num_pixel_axes := (10, 10)%nat;
     transform_pix2angle := ((0.1, 0), (0, 0.1))%float;
     radec_at_xy_0 := (0, 0)%float |}.

Definition example_psf (t : string) : PSF :=
  {| psf_type := t;
     fwhm := 0.2;
     kernel_point_source := [[1%float]];
     kernel_point_source_supersampled := fun _ => [[1%float]] |}.

(** A blur that hands the low-resolution image back, and a width conversion
    that hands the width back, to run the examples. *)
Definition no_blur (c : Convolution) (lo : image) (hi : option image) : image :=
  lo.

Definition example_collaborators : Collaborators :=
  spec_collaborators no_blur (fun fwhm => fwhm).

End Binary64.

(** * The update manager

    A shallow embedding of [lenstronomy/Workflow/update_manager.py]: the
    class [UpdateManager], which keeps the parameter state, the fixed
    parameters and the limits of a model between fitting steps.

    A Python dict is a list of (key, value) pairs in insertion order with
    unique keys; a list index may be negative, counting from the end.  A
    parameter value is a value of [V] or Python's [None]. *)
Module UpdateManager.

Inductive exn : Type :=
| IndexError
| KeyError (key : string)
| TypeError.

Inductive outcome (A : Type) : Type :=
| Return (a : A)
| Raise (e : exn).
Arguments Return {A} a.
Arguments Raise {A} e.

Definition obind {A B : Type} (r : outcome A) (k : A -> outcome B)
  : outcome B :=
  match r with
  | Return a => k a
  | Raise e => Raise e
  end.

Declare Scope outcome_scope.
Delimit Scope outcome_scope with outcome.
Notation "x <- r ;; k" := (obind r (fun x => k))
  (at level 61, r at next level, right associativity) : outcome_scope.

(** ** Python containers *)

Abbreviation pydict A := (list (string * A)%type) (only parsing).

(** The value under a key, if the key is in the dict. *)
Fixpoint dict_lookup {A : Type} (d : pydict A) (k : string) : option A :=
  match d with
  | [] => None
  | (k', v) :: d' => if k' =? k then Some v else dict_lookup d' k
  end.

(** [k in d] *)
Definition dict_contains {A : Type} (d : pydict A) (k : string) : bool :=
  match dict_lookup d k with
  | Some _ => true
  | None => false
  end.

(** [d[k]] *)
Definition dict_getitem {A : Type} (d : pydict A) (k : string) : outcome A :=
  match dict_lookup d k with
  | Some v => Return v
  | None => Raise (KeyError k)
  end.

(** [d[k] = v]: the value of a present key is replaced where it stands, a
    new key goes to the end. *)
Fixpoint dict_setitem {A : Type} (d : pydict A) (k : string) (v : A)
  : pydict A :=
  match d with
  | [] => [(k, v)]
  | (k', v') :: d' =>
      if k' =? k then (k, v) :: d' else (k', v') :: dict_setitem d' k v
  end.

(** [del d[k]], for a key that is in the dict. *)
Definition dict_delitem {A : Type} (d : pydict A) (k : string) : pydict A :=
  filter (fun kv => negb (fst kv =? k)) d.

(** The position a list index stands for: [0 .. len-1] from the front,
    [-len .. -1] from the end. *)
Definition list_position {A : Type} (l : list A) (i : Z) : option nat :=
  let n := Z.of_nat (List.length l) in
  if (0 <=? i)%Z then
    if (i <? n)%Z then Some (Z.to_nat i) else None
  else
    if (- n <=? i)%Z then Some (Z.to_nat (n + i)) else None.

(** [l[i]] *)
Definition list_getitem {A : Type} (l : list A) (i : Z) : outcome A :=
  match list_position l i with
  | Some n =>
      match nth_error l n with
      | Some x => Return x
      | None => Raise IndexError
      end
  | None => Raise IndexError
  end.

Fixpoint replace_at {A : Type} (n : nat) (x : A) (l : list A) : list A :=
  match l, n with
  | [], _ => []
  | _ :: l', O => x :: l'
  | y :: l', S n' => y :: replace_at n' x l'
  end.

(** [kwargs[i][k] = v] on a list of dicts: the dict at index [i] is changed
    in place. *)
Definition setitem_at {A : Type} (kwargs : list (pydict A)) (i : Z)
    (k : string) (v : A) : outcome (list (pydict A)) :=
  match list_position kwargs i with
  | Some n =>
      match nth_error kwargs n with
      | Some d => Return (replace_at n (dict_setitem d k v) kwargs)
      | None => Raise IndexError
      end
  | None => Raise IndexError
  end.

(** [values[j]] for [j] counted by [enumerate]. *)
Definition seq_getitem {A : Type} (values : list A) (j : nat) : outcome A :=
  match nth_error values j with
  | Some v => Return v
  | None => Raise IndexError
  end.

(** [copy.deepcopy]: the copy has the value of the original and shares
    nothing with it. *)
Definition deepcopy {A : Type} (x : A) : A := x.

(** A parameter value, or Python's [None]; the keyword arguments of one
    model component; those of all components of a type. *)
Abbreviation value V := (option V) (only parsing).
Abbreviation kwargs V := (pydict (option V)) (only parsing).
Abbreviation kwargs_list V := (list (pydict (option V))) (only parsing).

Section Parameters.

Variable V : Type.

(** An entry [[i_model, [names]]] or [[i_model, [names], [values]]] of the
    lists the update methods take; [entry_values] is [None] for an entry of
    two elements. *)
Record entry : Type := {
  entry_index : Z;
  entry_names : list string;
  entry_values : option (list (value V))
}.

(** [item[2]] *)
Definition entry_third (item : entry) : outcome (list (value V)) :=
  match entry_values item with
  | Some values => Return values
  | None => Raise IndexError
  end.

(** *** _update_limit (lines 203-218) *)

(** The inner loop, lines 216-217. *)
Fixpoint assign_limits (kwargs_limit_updated : kwargs_list V) (i_model : Z)
    (values : list (value V)) (j : nat) (change_names : list string)
  : outcome (kwargs_list V) :=
  match change_names with
  | [] => Return kwargs_limit_updated
  | param_name :: rest =>
      (v <- seq_getitem values j ;;
       updated <- setitem_at kwargs_limit_updated i_model param_name v ;;
       assign_limits updated i_model values (S j) rest)%outcome
  end.

(** The outer loop, lines 212-217. *)
Fixpoint update_limit_loop (change_limit : list entry)
    (kwargs_limit_updated : kwargs_list V) : outcome (kwargs_list V) :=
  match change_limit with
  | [] => Return kwargs_limit_updated
  | item :: rest =>
      let i_model := entry_index item in
      let change_names := entry_names item in
      (values <- entry_third item ;;
       updated <- assign_limits kwargs_limit_updated i_model values 0
                    change_names ;;
       update_limit_loop rest updated)%outcome
  end.

Definition _update_limit (change_limit : list entry)
    (kwargs_limit_previous : kwargs_list V) : outcome (kwargs_list V) :=
  let kwargs_limit_updated := deepcopy kwargs_limit_previous in
  update_limit_loop change_limit kwargs_limit_updated.

(** *** _add_fixed (lines 253-275)

    [kwargs_fixed] is changed in place: a call gives the object as the call
    leaves it, and the exception if one was raised.  [kwargs_model] is
    another object ([None] when the parameter state holds [None]). *)
Definition in_place : Type := (kwargs_list V * option exn)%type.

(** The right-hand side of lines 271-274. *)
Definition fixed_value (kwargs_model : option (kwargs_list V)) (i_model : Z)
    (param_name : string) (vj : value V) : outcome (value V) :=
  match vj with
  | None =>
      match kwargs_model with
      | None => Raise TypeError
      | Some km =>
          (d <- list_getitem km i_model ;; dict_getitem d param_name)%outcome
      end
  | Some _ => Return vj
  end.

(** The inner loop, lines 270-274. *)
Fixpoint fix_params (kwargs_model : option (kwargs_list V))
    (kwargs_fixed : kwargs_list V) (i_model : Z) (values : list (value V))
    (j : nat) (fix_names : list string) : in_place :=
  match fix_names with
  | [] => (kwargs_fixed, None)
  | param_name :: rest =>
      match (vj <- seq_getitem values j ;;
             v <- fixed_value kwargs_model i_model param_name vj ;;
             setitem_at kwargs_fixed i_model param_name v)%outcome with
      | Return kwargs_fixed' =>
          fix_params kwargs_model kwargs_fixed' i_model values (S j) rest
      | Raise e => (kwargs_fixed, Some e)
      end
  end.

(** Lines 266-269. *)
Definition entry_values_or_none (item : entry) : list (value V) :=
  match entry_values item with
  | Some values => values
  | None => repeat None (List.length (entry_names item))
  end.

Fixpoint _add_fixed (kwargs_model : option (kwargs_list V))
    (kwargs_fixed : kwargs_list V) (add_fixed : list entry) : in_place :=
  match add_fixed with
  | [] => (kwargs_fixed, None)
  | item :: rest =>
      let i_model := entry_index item in
      let fix_names := entry_names item in
      let values := entry_values_or_none item in
      match fix_params kwargs_model kwargs_fixed i_model values 0 fix_names with
      | (kwargs_fixed', None) => _add_fixed kwargs_model kwargs_fixed' rest
      | (kwargs_fixed', Some e) => (kwargs_fixed', Some e)
      end
  end.

(** *** _remove_fixed (lines 277-291) *)

(** The inner loop, lines 288-290. *)
Fixpoint unfix_params (kwargs_fixed : kwargs_list V) (i_model : Z)
    (fix_names : list string) : in_place :=
  match fix_names with
  | [] => (kwargs_fixed, None)
  | param_name :: rest =>
      match list_position kwargs_fixed i_model with
      | Some n =>
          match nth_error kwargs_fixed n with
          | Some d =>
              if dict_contains d param_name then
                unfix_params
                  (replace_at n (dict_delitem d param_name) kwargs_fixed)
                  i_model rest
              else unfix_params kwargs_fixed i_model rest
          | None => (kwargs_fixed, Some IndexError)
          end
      | None => (kwargs_fixed, Some IndexError)
      end
  end.

Fixpoint _remove_fixed (kwargs_fixed : kwargs_list V)
    (remove_fixed : list entry) : in_place :=
  match remove_fixed with
  | [] => (kwargs_fixed, None)
  | item :: rest =>
      let i_model := entry_index item in
      let fix_names := entry_names item in
      match unfix_params kwargs_fixed i_model fix_names with
      | (kwargs_fixed', None) => _remove_fixed kwargs_fixed' rest
      | (kwargs_fixed', Some e) => (kwargs_fixed', Some e)
      end
  end.

End Parameters.

Arguments entry_index {V} e.
Arguments entry_names {V} e.
Arguments entry_values {V} e.
Arguments entry_third {V} item.
Arguments assign_limits {V} kwargs_limit_updated i_model values j change_names.
Arguments update_limit_loop {V} change_limit kwargs_limit_updated.
Arguments _update_limit {V} change_limit kwargs_limit_previous.
Arguments fixed_value {V} kwargs_model i_model param_name vj.
Arguments fix_params {V} kwargs_model kwargs_fixed i_model values j fix_names.
Arguments entry_values_or_none {V} item.
Arguments _add_fixed {V} kwargs_model kwargs_fixed add_fixed.
Arguments unfix_params {V} kwargs_fixed i_model fix_names.
Arguments _remove_fixed {V} kwargs_fixed remove_fixed.

(** ** The class UpdateManager *)

(** The five objects [kwargs_params] holds for one model type, in the order
    they are unpacked in (lines 26-54): the attributes [self._lens_init],
    [self._lens_sigma], [self._lens_fixed], [self._lens_lower] and
    [self._lens_upper] for the lens models, and likewise for the others. *)
Record five (A : Type) : Type := {
  init : A;
  sigma : A;
  fixed : A;
  lower : A;
  upper : A
}.
Arguments init {A} f.
Arguments sigma {A} f.
Arguments fixed {A} f.
Arguments lower {A} f.
Arguments upper {A} f.

Definition with_init {A : Type} (f : five A) (x : A) : five A :=
  {| init := x; sigma := sigma f; fixed := fixed f; lower := lower f;
     upper := upper f |}.

Definition with_fixed {A : Type} (f : five A) (x : A) : five A :=
  {| init := init f; sigma := sigma f; fixed := x; lower := lower f;
     upper := upper f |}.

Definition with_lower {A : Type} (f : five A) (x : A) : five A :=
  {| init := init f; sigma := sigma f; fixed := fixed f; lower := x;
     upper := upper f |}.

Definition with_upper {A : Type} (f : five A) (x : A) : five A :=
  {| init := init f; sigma := sigma f; fixed := fixed f; lower := lower f;
     upper := x |}.

(** What an entry of [self._kwargs_temp] refers to: the object of the
    matching [_init] attribute (line 56 and [set_init_state] put the
    attributes themselves into the dict, not copies), or an object handed to
    [update_param_state], which may be [None]. *)
Inductive slot (A : Type) : Type :=
| Initial
| Given (x : option A).
Arguments Initial {A}.
Arguments Given {A} x.

(** The object a slot refers to. *)
Definition deref {A : Type} (initial : A) (s : slot A) : option A :=
  match s with
  | Initial => Some initial
  | Given x => x
  end.

(** The model types [update_param_value] and [update_fixed] loop over. *)
Inductive model_type : Type :=
| Lens
| Source
| LensLight
| PointSource.

Section Manager.

Variable V : Type.

(** [self._kwargs_temp], by key. *)
Record temp : Type := {
  kwargs_lens : slot (kwargs_list V);
  kwargs_source : slot (kwargs_list V);
  kwargs_lens_light : slot (kwargs_list V);
  kwargs_ps : slot (kwargs_list V);
  kwargs_special : slot (kwargs V);
  kwargs_extinction : slot (kwargs_list V)
}.

(** The attributes of an [UpdateManager] that hold parameters.  The objects
    are taken to be distinct: no two attributes share a list or a dict. *)
Record UpdateManager : Type := {
  _lens : five (kwargs_list V);
  _source : five (kwargs_list V);
  _lens_light : five (kwargs_list V);
  _ps : five (kwargs_list V);
  _extinction : five (kwargs_list V);
  _special : five (kwargs V);
  _kwargs_temp : temp
}.

Definition attributes (t : model_type) (self : UpdateManager)
  : five (kwargs_list V) :=
  match t with
  | Lens => _lens self
  | Source => _source self
  | LensLight => _lens_light self
  | PointSource => _ps self
  end.

Definition set_attributes (t : model_type) (f : five (kwargs_list V))
    (self : UpdateManager) : UpdateManager :=
  match t with
  | Lens =>
      {| _lens := f; _source := _source self;
         _lens_light := _lens_light self; _ps := _ps self;
         _extinction := _extinction self; _special := _special self;
         _kwargs_temp := _kwargs_temp self |}
  | Source =>
      {| _lens := _lens self; _source := f;
         _lens_light := _lens_light self; _ps := _ps self;
         _extinction := _extinction self; _special := _special self;
         _kwargs_temp := _kwargs_temp self |}
  | LensLight =>
      {| _lens := _lens self; _source := _source self;
         _lens_light := f; _ps := _ps self;
         _extinction := _extinction self; _special := _special self;
         _kwargs_temp := _kwargs_temp self |}
  | PointSource =>
      {| _lens := _lens self; _source := _source self;
         _lens_light := _lens_light self; _ps := f;
         _extinction := _extinction self; _special := _special self;
         _kwargs_temp := _kwargs_temp self |}
  end.

Definition set_special (f : five (kwargs V)) (self : UpdateManager)
  : UpdateManager :=
  {| _lens := _lens self; _source := _source self;
     _lens_light := _lens_light self; _ps := _ps self;
     _extinction := _extinction self; _special := f;
     _kwargs_temp := _kwargs_temp self |}.

Definition set_temp (tmp : temp) (self : UpdateManager) : UpdateManager :=
  {| _lens := _lens self; _source := _source self;
     _lens_light := _lens_light self; _ps := _ps self;
     _extinction := _extinction self; _special := _special self;
     _kwargs_temp := tmp |}.

Definition temp_slot (t : model_type) (tmp : temp) : slot (kwargs_list V) :=
  match t with
  | Lens => kwargs_lens tmp
  | Source => kwargs_source tmp
  | LensLight => kwargs_lens_light tmp
  | PointSource => kwargs_ps tmp
  end.

Definition set_temp_slot (t : model_type) (s : slot (kwargs_list V))
    (tmp : temp) : temp :=
  match t with
  | Lens =>
      {| kwargs_lens := s; kwargs_source := kwargs_source tmp;
         kwargs_lens_light := kwargs_lens_light tmp; kwargs_ps := kwargs_ps tmp;
         kwargs_special := kwargs_special tmp;
         kwargs_extinction := kwargs_extinction tmp |}
  | Source =>
      {| kwargs_lens := kwargs_lens tmp; kwargs_source := s;
         kwargs_lens_light := kwargs_lens_light tmp; kwargs_ps := kwargs_ps tmp;
         kwargs_special := kwargs_special tmp;
         kwargs_extinction := kwargs_extinction tmp |}
  | LensLight =>
      {| kwargs_lens := kwargs_lens tmp; kwargs_source := kwargs_source tmp;
         kwargs_lens_light := s; kwargs_ps := kwargs_ps tmp;
         kwargs_special := kwargs_special tmp;
         kwargs_extinction := kwargs_extinction tmp |}
  | PointSource =>
      {| kwargs_lens := kwargs_lens tmp; kwargs_source := kwargs_source tmp;
         kwargs_lens_light := kwargs_lens_light tmp; kwargs_ps := s;
         kwargs_special := kwargs_special tmp;
         kwargs_extinction := kwargs_extinction tmp |}
  end.

(** [self._kwargs_temp[key]] for the key of a model type. *)
Definition temp_getitem (t : model_type) (self : UpdateManager)
  : option (kwargs_list V) :=
  deref (init (attributes t self)) (temp_slot t (_kwargs_temp self)).

(** The object [self._kwargs_temp[key]] refers to, after a change in place:
    the [_init] attribute when the entry is that attribute. *)
Definition temp_store (t : model_type) (kw : kwargs_list V)
    (self : UpdateManager) : UpdateManager :=
  match temp_slot t (_kwargs_temp self) with
  | Initial => set_attributes t (with_init (attributes t self) kw) self
  | Given _ =>
      set_temp (set_temp_slot t (Given (Some kw)) (_kwargs_temp self)) self
  end.

(** A dict with the six keys of the parameter state, by key. *)
Record state : Type := {
  state_lens : option (kwargs_list V);
  state_source : option (kwargs_list V);
  state_lens_light : option (kwargs_list V);
  state_ps : option (kwargs_list V);
  state_special : option (kwargs V);
  state_extinction : option (kwargs_list V)
}.

(** [init_kwargs] (lines 60-64) *)
Definition init_kwargs (self : UpdateManager) : state :=
  {| state_lens := Some (init (_lens self));
     state_source := Some (init (_source self));
     state_lens_light := Some (init (_lens_light self));
     state_ps := Some (init (_ps self));
     state_special := Some (init (_special self));
     state_extinction := Some (init (_extinction self)) |}.

(** [fixed_kwargs] (lines 80-82) *)
Definition fixed_kwargs (self : UpdateManager)
  : kwargs_list V * kwargs_list V * kwargs_list V * kwargs_list V * kwargs V
    * kwargs_list V :=
  (fixed (_lens self), fixed (_source self), fixed (_lens_light self),
   fixed (_ps self), fixed (_special self), fixed (_extinction self)).

(** [set_init_state] (lines 84-90): the dict [init_kwargs] builds holds the
    [_init] attributes themselves. *)
Definition set_init_state (self : UpdateManager) : UpdateManager :=
  set_temp
    {| kwargs_lens := Initial; kwargs_source := Initial;
       kwargs_lens_light := Initial; kwargs_ps := Initial;
       kwargs_special := Initial; kwargs_extinction := Initial |} self.

(** [parameter_state] (lines 92-98) *)
Definition parameter_state (self : UpdateManager) : state :=
  let tmp := _kwargs_temp self in
  {| state_lens := deref (init (_lens self)) (kwargs_lens tmp);
     state_source := deref (init (_source self)) (kwargs_source tmp);
     state_lens_light :=
       deref (init (_lens_light self)) (kwargs_lens_light tmp);
     state_ps := deref (init (_ps self)) (kwargs_ps tmp);
     state_special := deref (init (_special self)) (kwargs_special tmp);
     state_extinction :=
       deref (init (_extinction self)) (kwargs_extinction tmp) |}.

(** [update_param_state] (lines 113-129); an argument left out is [None].
    The objects passed are taken to be none of the manager's own. *)
Definition update_param_state
    (kwargs_lens kwargs_source kwargs_lens_light kwargs_ps
       : option (kwargs_list V))
    (kwargs_special : option (kwargs V))
    (kwargs_extinction : option (kwargs_list V))
    (self : UpdateManager) : UpdateManager :=
  set_temp
    {| kwargs_lens := Given kwargs_lens;
       kwargs_source := Given kwargs_source;
       kwargs_lens_light := Given kwargs_lens_light;
       kwargs_ps := Given kwargs_ps;
       kwargs_special := Given kwargs_special;
       kwargs_extinction := Given kwargs_extinction |} self.

(** A method that changes the manager in place: the manager as the call
    leaves it, and the exception if one was raised. *)
Definition changed : Type := (UpdateManager * option exn)%type.

Definition and_then (r : changed) (k : UpdateManager -> changed) : changed :=
  match r with
  | (self, None) => k self
  | (self, Some e) => (self, Some e)
  end.

(** *** update_param_value (lines 131-153) *)

(** Lines 152-153; [zip] stops at the shorter of keys and values. *)
Fixpoint write_values (t : model_type) (index : Z) (keys : list string)
    (values : list (value V)) (self : UpdateManager) : changed :=
  match keys, values with
  | key :: keys', v :: values' =>
      match temp_getitem t self with
      | None => (self, Some TypeError)
      | Some kw =>
          match setitem_at kw index key v with
          | Return kw' =>
              write_values t index keys' values' (temp_store t kw' self)
          | Raise e => (self, Some e)
          end
      end
  | _, _ => (self, None)
  end.

(** Lines 147-153. *)
Fixpoint write_items (t : model_type) (items : list (entry V))
    (self : UpdateManager) : changed :=
  match items with
  | [] => (self, None)
  | item :: rest =>
      let index := entry_index item in
      let keys := entry_names item in
      match entry_third item with
      | Return values =>
          and_then (write_values t index keys values self)
            (write_items t rest)
      | Raise e => (self, Some e)
      end
  end.

Definition update_param_value (lens source lens_light ps : list (entry V))
    (self : UpdateManager) : changed :=
  and_then (write_items Lens lens self) (fun self =>
  and_then (write_items Source source self) (fun self =>
  and_then (write_items LensLight lens_light self) (fun self =>
  write_items PointSource ps self))).

(** *** update_limits (lines 191-201) *)

Definition update_limits
    (change_source_lower_limit change_source_upper_limit
       : option (list (entry V)))
    (self : UpdateManager) : changed :=
  and_then
    (match change_source_lower_limit with
     | Some change =>
         match _update_limit change (lower (_source self)) with
         | Return updated =>
             (set_attributes Source (with_lower (_source self) updated) self,
              None)
         | Raise e => (self, Some e)
         end
     | None => (self, None)
     end)
    (fun self =>
       match change_source_upper_limit with
       | Some change =>
           match _update_limit change (upper (_source self)) with
           | Return updated =>
               (set_attributes Source (with_upper (_source self) updated) self,
                None)
           | Raise e => (self, Some e)
           end
       | None => (self, None)
       end).

(** *** update_fixed (lines 220-251) *)

(** Lines 233-240, for one model type: [_add_fixed] and [_remove_fixed]
    change the [_fixed] attribute in place. *)
Definition fix_model_type (t : model_type)
    (add_fixed remove_fixed : list (entry V)) (self : UpdateManager)
  : changed :=
  let store kf self :=
    set_attributes t (with_fixed (attributes t self) kf) self in
  match _add_fixed (temp_getitem t self) (fixed (attributes t self))
          add_fixed with
  | (kf, Some e) => (store kf self, Some e)
  | (kf, None) =>
      match _remove_fixed kf remove_fixed with
      | (kf', Some e) => (store kf' self, Some e)
      | (kf', None) => (store kf' self, None)
      end
  end.

(** Lines 243-247. *)
Fixpoint add_special (special_temp : option (kwargs V))
    (special_fixed : kwargs V) (special_add_fixed : list string)
  : outcome (kwargs V) :=
  match special_add_fixed with
  | [] => Return special_fixed
  | param_name :: rest =>
      if dict_contains special_fixed param_name then
        add_special special_temp special_fixed rest
      else
        match special_temp with
        | None => Raise TypeError
        | Some tmp =>
            (v <- dict_getitem tmp param_name ;;
             add_special special_temp
               (dict_setitem special_fixed param_name v) rest)%outcome
        end
  end.

(** Lines 248-250. *)
Fixpoint remove_special (special_fixed : kwargs V)
    (special_remove_fixed : list string) : kwargs V :=
  match special_remove_fixed with
  | [] => special_fixed
  | param_name :: rest =>
      if dict_contains special_fixed param_name then
        remove_special (dict_delitem special_fixed param_name) rest
      else remove_special special_fixed rest
  end.

Definition update_fixed
    (lens_add_fixed source_add_fixed lens_light_add_fixed ps_add_fixed
       : list (entry V))
    (special_add_fixed : list string)
    (lens_remove_fixed source_remove_fixed lens_light_remove_fixed
       ps_remove_fixed : list (entry V))
    (special_remove_fixed : list string)
    (self : UpdateManager) : changed :=
  and_then (fix_model_type Lens lens_add_fixed lens_remove_fixed self)
    (fun self =>
  and_then (fix_model_type Source source_add_fixed source_remove_fixed self)
    (fun self =>
  and_then (fix_model_type LensLight lens_light_add_fixed
              lens_light_remove_fixed self)
    (fun self =>
  and_then (fix_model_type PointSource ps_add_fixed ps_remove_fixed self)
    (fun self =>
  let special_fixed := deepcopy (fixed (_special self)) in
  let special_temp :=
    deref (init (_special self)) (kwargs_special (_kwargs_temp self)) in
  match add_special special_temp special_fixed special_add_fixed with
  | Return special_fixed' =>
      (set_special
         (with_fixed (_special self)
            (remove_special special_fixed' special_remove_fixed)) self,
       None)
  | Raise e => (self, Some e)
  end)))).

End Manager.

Arguments kwargs_lens {V} t.
Arguments kwargs_source {V} t.
Arguments kwargs_lens_light {V} t.
Arguments kwargs_ps {V} t.
Arguments kwargs_special {V} t.
Arguments kwargs_extinction {V} t.
Arguments _lens {V} u.
Arguments _source {V} u.
Arguments _lens_light {V} u.
Arguments _ps {V} u.
Arguments _extinction {V} u.
Arguments _special {V} u.
Arguments _kwargs_temp {V} u.
Arguments attributes {V} t self.
Arguments set_attributes {V} t f self.
Arguments set_special {V} f self.
Arguments set_temp {V} tmp self.
Arguments temp_slot {V} t tmp.
Arguments set_temp_slot {V} t s tmp.
Arguments temp_getitem {V} t self.
Arguments temp_store {V} t kw self.
Arguments state_lens {V} s.
Arguments state_source {V} s.
Arguments state_lens_light {V} s.
Arguments state_ps {V} s.
Arguments state_special {V} s.
Arguments state_extinction {V} s.
Arguments init_kwargs {V} self.
Arguments fixed_kwargs {V} self.
Arguments set_init_state {V} self.
Arguments parameter_state {V} self.
Arguments update_param_state {V} kwargs_lens kwargs_source kwargs_lens_light
  kwargs_ps kwargs_special kwargs_extinction self.
Arguments and_then {V} r k.
Arguments write_values {V} t index keys values self.
Arguments write_items {V} t items self.
Arguments update_param_value {V} lens source lens_light ps self.
Arguments update_limits {V} change_source_lower_limit
  change_source_upper_limit self.
Arguments fix_model_type {V} t add_fixed remove_fixed self.
Arguments add_special {V} special_temp special_fixed special_add_fixed.
Arguments remove_special {V} special_fixed special_remove_fixed.
Arguments update_fixed {V} lens_add_fixed source_add_fixed
  lens_light_add_fixed ps_add_fixed special_add_fixed lens_remove_fixed
  source_remove_fixed lens_light_remove_fixed ps_remove_fixed
  special_remove_fixed self.

(** ** Reading a list of keyword arguments *)

(** Whether [l[i]] exists. *)
Definition in_range {A : Type} (l : list A) (i : Z) : bool :=
  match list_position l i with
  | Some _ => true
  | None => false
  end.

(** The value of parameter [k] of the model at position [n], if there is
    one. *)
Definition param_at {V : Type} (kw : kwargs_list V) (n : nat) (k : string)
  : option (value V) :=
  match nth_error kw n with
  | Some d => dict_lookup d k
  | None => None
  end.

(** An entry [_update_limit] can carry out on a list of keyword arguments:
    it has values, and if it names parameters, its model index is in range
    and it has a value for each name. *)
Definition limit_entry_fits {V : Type} (kw : kwargs_list V) (item : entry V)
  : bool :=
  match entry_values item with
  | None => false
  | Some values =>
      match entry_names item with
      | [] => true
      | _ :: _ =>
          in_range kw (entry_index item)
          && (List.length (entry_names item) <=? List.length values)%nat
      end
  end.

(** Whether one of the entries names parameter [k] of the model at position
    [n] of the list [kw]. *)
Definition names_param {V : Type} (kw : kwargs_list V) (items : list (entry V))
    (n : nat) (k : string) : bool :=
  existsb
    (fun item =>
       match list_position kw (entry_index item) with
       | Some m => (m =? n)%nat && existsb (String.eqb k) (entry_names item)
       | None => false
       end)
    items.

(** An entry that gives its values, none of them [None]. *)
Definition gives_values {V : Type} (item : entry V) : bool :=
  match entry_values item with
  | Some values =>
      forallb (fun v => match v with Some _ => true | None => false end)
        values
  | None => false
  end.

(** An entry [_remove_fixed] can carry out: if it names parameters, its
    model index is in range. *)
Definition remove_entry_fits {V : Type} (kw : kwargs_list V) (item : entry V)
  : bool :=
  match entry_names item with
  | [] => true
  | _ :: _ => in_range kw (entry_index item)
  end.

(** The parameters of one model, without those the entries name. *)
Definition without_named {V : Type} (kw : kwargs_list V)
    (items : list (entry V)) (n : nat) (d : kwargs V) : kwargs V :=
  filter (fun kv => negb (names_param kw items n (fst kv))) d.

(** An entry without the names that [zip] pairs with no value. *)
Definition paired_names {V : Type} (item : entry V) : entry V :=
  {| entry_index := entry_index item;
     entry_names :=
       match entry_values item with
       | Some values => firstn (List.length values) (entry_names item)
       | None => entry_names item
       end;
     entry_values := entry_values item |}.

(** ** A sample manager: one lens model, one source model, one special
    parameter fixed. *)

Definition no_models : five (kwargs_list Z) :=
  {| init := []; sigma := []; fixed := []; lower := []; upper := [] |}.

Definition sample_manager : UpdateManager Z :=
  {| _lens :=
       {| init := [[("theta_E", Some 1%Z); ("e1", Some 0%Z)]];
          sigma := [[("theta_E", Some 1%Z); ("e1", Some 1%Z)]];
          fixed := [[]];
          lower := [[("theta_E", Some 0%Z); ("e1", Some (-1)%Z)]];
          upper := [[("theta_E", Some 10%Z); ("e1", Some 1%Z)]] |};
     _source :=
       {| init := [[("R_sersic", Some 2%Z)]];
          sigma := [[("R_sersic", Some 1%Z)]];
          fixed := [[]];
          lower := [[("R_sersic", Some 0%Z)]];
          upper := [[("R_sersic", Some 5%Z)]] |};
     _lens_light := no_models;
     _ps := no_models;
     _extinction := no_models;
     _special :=
       {| init := [("delta_x", Some 3%Z); ("z", Some 4%Z)];
          sigma := [("delta_x", Some 1%Z); ("z", Some 1%Z)];
          fixed := [("z", Some 9%Z)];
          lower := [("delta_x", Some 0%Z); ("z", Some 0%Z)];
          upper := [("delta_x", Some 5%Z); ("z", Some 10%Z)] |};
     _kwargs_temp :=
       {| kwargs_lens := Initial; kwargs_source := Initial;
          kwargs_lens_light := Initial; kwargs_ps := Initial;
          kwargs_special := Initial; kwargs_extinction := Initial |} |}.

(** The entry [[0, [name]]] and the entry [[i, [name], [v]]]. *)
Definition name_entry (name : string) : entry Z :=
  {| entry_index := 0; entry_names := [name]; entry_values := None |}.

Definition value_entry (i : Z) (name : string) (v : Z) : entry Z :=
  {| entry_index := i; entry_names := [name]; entry_values := Some [Some v] |}.

End UpdateManager.

(** * Properties *)

(** Equality of two images written out cell by cell. *)
Ltac image_eq :=
  repeat match goal with
         | |- @eq (list _) (_ :: _) (_ :: _) => apply (f_equal2 (@cons _))
         | |- @eq (list _) [] [] => reflexivity
         | |- @eq R _ _ => lra
         end.

(** ** The result monad and the calls into collaborators *)

Lemma rbind_Ok_inv {A B : Type} (r : result A) (k : A -> result B) (b : B) :
  rbind r k = Ok b -> exists x, r = Ok x /\ k x = Ok b.
Proof.
  destruct r as [x | e]; simpl; intros H.
  - exists x. split; [reflexivity | exact H].
  - discriminate H.
Qed.

Lemma new_grid_Ok (C : Collaborators) (g g' : Grid) :
  new_grid C g = Ok g' -> g' = g /\ grid_new C g = Ok tt.
Proof.
  unfold new_grid, rmap. intros H.
  apply rbind_Ok_inv in H as [[] [Hn Hk]].
  split; [congruence | exact Hn].
Qed.

Lemma new_conv_Ok (C : Collaborators) (c : Convolution)
    (oc : option Convolution) :
  new_conv C c = Ok oc -> oc = Some c /\ conv_new C c = Ok tt.
Proof.
  unfold new_conv, rmap. intros H.
  apply rbind_Ok_inv in H as [[] [Hn Hk]].
  split; [congruence | exact Hn].
Qed.

Lemma new_point_source_Ok (C : Collaborators) (p p' : PointSourceRendering) :
  new_point_source C p = Ok p' -> p' = p /\ point_source_new C p = Ok tt.
Proof.
  unfold new_point_source, rmap. intros H.
  apply rbind_Ok_inv in H as [[] [Hn Hk]].
  split; [congruence | exact Hn].
Qed.

(** ** The constructor, step by step *)

Lemma Numerics_init_steps (C : Collaborators) (a : NumericsArgs) :
  Numerics_init C a =
  (g <- new_grid C (grid_call a) ;;
   c <- select_conv C a (psf_type (psf a))
          (effective_supersampling_convolution a)
          (effective_supersampled_indexes a) ;;
   base <- new_point_source C (point_source_call a) ;;
   Ok {| _psf_type := psf_type (psf a);
         _pixel_width := pixel_width (pixel_grid a);
         _grid := g;
         _conv := c;
         _point_source := base |})%result.
Proof.
  unfold Numerics_init, grid_call, effective_supersampling_convolution,
    effective_supersampled_indexes, point_source_call.
  destruct (num_pixel_axes (pixel_grid a)) as [nx ny].
  destruct (radec_at_xy_0 (pixel_grid a)) as [ra dec].
  simpl. destruct (compute_mode a =? "adaptive"); reflexivity.
Qed.

(** What a constructed engine holds. *)
Lemma Numerics_init_Ok (C : Collaborators) (a : NumericsArgs) (self : Numerics) :
  Numerics_init C a = Ok self ->
  grid_new C (grid_call a) = Ok tt
  /\ select_conv C a (psf_type (psf a))
       (effective_supersampling_convolution a)
       (effective_supersampled_indexes a) = Ok (_conv self)
  /\ point_source_new C (point_source_call a) = Ok tt
  /\ self = {| _psf_type := psf_type (psf a);
               _pixel_width := pixel_width (pixel_grid a);
               _grid := grid_call a;
               _conv := _conv self;
               _point_source := point_source_call a |}.
Proof.
  rewrite Numerics_init_steps. intros H.
  apply rbind_Ok_inv in H as [g [Hg H]].
  apply rbind_Ok_inv in H as [c [Hc H]].
  apply rbind_Ok_inv in H as [base [Hb H]].
  apply new_grid_Ok in Hg as [-> Hg].
  apply new_point_source_Ok in Hb as [-> Hb].
  injection H as <-. simpl. auto.
Qed.

(** A constructed engine has a convolution unless its PSF type is NONE. *)
Lemma select_conv_Some (C : Collaborators) (a : NumericsArgs) (t : string)
    (b : bool) (m : mask) (oc : option Convolution) :
  select_conv C a t b m = Ok oc -> (t =? "NONE") = false ->
  exists c, oc = Some c.
Proof.
  unfold select_conv. intros H Hnone.
  destruct (t =? "PIXEL").
  - destruct ((compute_mode a =? "adaptive") && b);
      [| destruct ((compute_mode a =? "regular") && b)];
      apply new_conv_Ok in H as [-> _]; eexists; reflexivity.
  - destruct (t =? "GAUSSIAN").
    + apply new_conv_Ok in H as [-> _]; eexists; reflexivity.
    + rewrite Hnone in H. discriminate H.
Qed.

Lemma constructed_has_conv (C : Collaborators) (a : NumericsArgs)
    (self : Numerics) :
  Numerics_init C a = Ok self -> (_psf_type self =? "NONE") = false ->
  exists c, _conv self = Some c.
Proof.
  intros H Hnone. apply Numerics_init_Ok in H as (_ & Hc & _ & Hself).
  rewrite Hself in Hnone. simpl in Hnone.
  exact (select_conv_Some _ _ _ _ _ _ Hc Hnone).
Qed.

(** ** Methods leave the object as it is *)

Lemma re_size_convolve_self (C : Collaborators) (flux_array : list R)
    (unconvolved : bool) (self : Numerics) :
  snd (re_size_convolve C flux_array unconvolved self) = self.
Proof.
  unfold re_size_convolve, mbind, attr, call, mret, mraise.
  destruct (grid_flux_array2image_low_high C (_grid self) flux_array)
    as [[lo hi] | e]; [| reflexivity].
  destruct (unconvolved || (_psf_type self =? "NONE")); [reflexivity |].
  destruct (_conv self) as [c |]; [| reflexivity].
  destruct (conv_re_size_convolve C c lo hi); reflexivity.
Qed.

Lemma coordinates_evaluate_self (C : Collaborators) (self : Numerics) :
  snd (coordinates_evaluate C self) = self.
Proof. reflexivity. Qed.

Lemma serve_self (C : Collaborators) (q : request) (self : Numerics) :
  snd (serve C q self) = self.
Proof.
  destruct q as [| flux_array unconvolved]; simpl.
  - reflexivity.
  - pose proof (re_size_convolve_self C flux_array unconvolved self) as H.
    destruct (re_size_convolve C flux_array unconvolved self). exact H.
Qed.

Lemma serve_all_spec (C : Collaborators) (qs : list request) (self : Numerics) :
  serve_all C qs self = (map (fun q => fst (serve C q self)) qs, self).
Proof.
  induction qs as [| q qs IH]; simpl.
  - reflexivity.
  - pose proof (serve_self C q self) as Hq.
    destruct (serve C q self) as [r self']. simpl in Hq. subst self'.
    rewrite IH. reflexivity.
Qed.

(** The result of [re_size_convolve], read off the object. *)
Lemma re_size_convolve_result (C : Collaborators) (flux_array : list R)
    (unconvolved : bool) (self : Numerics) :
  fst (re_size_convolve C flux_array unconvolved self) =
  ('(lo, hi) <- grid_flux_array2image_low_high C (_grid self) flux_array ;;
   image_conv <-
     (if unconvolved || (_psf_type self =? "NONE") then Ok lo
      else match _conv self with
           | Some c => conv_re_size_convolve C c lo hi
           | None => Err AttributeError
           end) ;;
   Ok (image_scale image_conv (_pixel_width self ^ 2)))%result.
Proof.
  unfold re_size_convolve, mbind, attr, call, mret, mraise, rbind.
  destruct (grid_flux_array2image_low_high C (_grid self) flux_array)
    as [[lo hi] | e]; [| reflexivity].
  destruct (unconvolved || (_psf_type self =? "NONE")); [reflexivity |].
  destruct (_conv self) as [c |]; [| reflexivity].
  destruct (conv_re_size_convolve C c lo hi); reflexivity.
Qed.

(** ** The unconvolved image *)

(** C1.  For every engine and every flux array,
    [re_size_convolve(flux_array, unconvolved=True)] is the low-resolution
    image the grid reassembles from the flux array with every pixel
    multiplied by the pixel width times the pixel width; it raises only what
    the grid raises.  Neither the PSF type nor the convolution object enters
    the result. *)
Theorem re_size_convolve_unconvolved (C : Collaborators) (self : Numerics)
    (flux_array : list R) :
  fst (re_size_convolve C flux_array true self) =
  match grid_flux_array2image_low_high C (_grid self) flux_array with
  | Ok (image_low_res, _) =>
      Ok (map (map (fun x => (x * (_pixel_width self * _pixel_width self))%R))
            image_low_res)
  | Err e => Err e
  end.
Proof.
  rewrite re_size_convolve_result. unfold rbind. simpl.
  destruct (grid_flux_array2image_low_high C (_grid self) flux_array)
    as [[lo hi] | e]; [| reflexivity].
  unfold image_scale. f_equal.
  apply map_ext. intros row. apply map_ext. intros x. ring.
Qed.

(** ** Normalisation of the supersampling-convolution flag *)

Lemma effective_flag_factor_one (a : NumericsArgs) :
  supersampling_factor a = 1%Z ->
  effective_supersampling_convolution a = false.
Proof.
  intros H. unfold effective_supersampling_convolution. rewrite H.
  reflexivity.
Qed.

Lemma select_conv_flag_off (C : Collaborators) (a : NumericsArgs) (t : string)
    (m : mask) (c : Convolution) :
  select_conv C a t false m = Ok (Some c) -> convolves_supersampled c = false.
Proof.
  unfold select_conv. rewrite !andb_false_r. intros H.
  destruct (t =? "PIXEL").
  - apply new_conv_Ok in H as [H _]. injection H as ->. reflexivity.
  - destruct (t =? "GAUSSIAN").
    + apply new_conv_Ok in H as [H _]. injection H as ->. reflexivity.
    + destruct (t =? "NONE"); discriminate H.
Qed.

(** C2.  With supersampling factor 1 the supersampling-convolution flag in
    force is False whatever the caller passed: the constructor gives the
    result it gives for the same call with the flag False, and the
    convolution it builds does not work on the supersampled grid. *)
Theorem supersampling_factor_one_turns_flag_off (C : Collaborators)
    (a : NumericsArgs) :
  supersampling_factor a = 1%Z ->
  effective_supersampling_convolution a = false
  /\ Numerics_init C a = Numerics_init C (with_supersampling_convolution a false)
  /\ (forall self c, Numerics_init C a = Ok self -> _conv self = Some c ->
        convolves_supersampled c = false).
Proof.
  intros H. pose proof (effective_flag_factor_one a H) as Hoff.
  split; [exact Hoff | split].
  - rewrite !Numerics_init_steps. unfold effective_supersampling_convolution.
    simpl. rewrite H. reflexivity.
  - intros self c Hinit Hc.
    apply Numerics_init_Ok in Hinit as (_ & Hsel & _).
    rewrite Hoff, Hc in Hsel. exact (select_conv_flag_off _ _ _ _ _ Hsel).
Qed.

Lemma supersampling_factor_one_turns_flag_off_witness :
  let a := with_supersampling_convolution
             (with_compute_mode
                (default_args example_pixel_grid (example_psf "PIXEL"))
                "adaptive") true in
  supersampling_convolution a = true
  /\ effective_supersampling_convolution a = false
  /\ Numerics_init example_collaborators a =
     Numerics_init example_collaborators
       (with_supersampling_convolution a false)
  /\ (forall self c, Numerics_init example_collaborators a = Ok self ->
        _conv self = Some c -> convolves_supersampled c = false).
Proof.
  intros a. split; [reflexivity |].
  apply (supersampling_factor_one_turns_flag_off example_collaborators a).
  reflexivity.
Defined.

(** ** PSF type NONE *)

(** C3.  On an engine constructed with PSF type NONE,
    [re_size_convolve] gives the same result with [unconvolved] True and
    False, for every flux array. *)
Theorem psf_none_ignores_unconvolved (C : Collaborators) (a : NumericsArgs)
    (self : Numerics) (flux_array : list R) :
  Numerics_init C a = Ok self ->
  psf_type (psf a) = "NONE" ->
  re_size_convolve C flux_array true self =
  re_size_convolve C flux_array false self.
Proof.
  intros Hinit Hnone.
  apply Numerics_init_Ok in Hinit as (_ & _ & _ & Hself).
  assert (Ht : _psf_type self = "NONE") by (rewrite Hself; exact Hnone).
  unfold re_size_convolve, mbind, attr, call. cbv beta iota.
  destruct (grid_flux_array2image_low_high C (_grid self) flux_array)
    as [[lo hi] | e]; [| reflexivity].
  rewrite Ht. reflexivity.
Qed.

Lemma psf_none_ignores_unconvolved_witness :
  exists self,
    Numerics_init example_collaborators
      (default_args example_pixel_grid (example_psf "NONE")) = Ok self
    /\ re_size_convolve example_collaborators (repeat 1%R 100) true self =
       re_size_convolve example_collaborators (repeat 1%R 100) false self.
Proof.
  eexists. split; [reflexivity |].
  apply (psf_none_ignores_unconvolved example_collaborators
           (default_args example_pixel_grid (example_psf "NONE")));
    reflexivity.
Defined.

(** ** Unknown PSF types *)

Lemma select_conv_unknown (C : Collaborators) (a : NumericsArgs) (t : string)
    (b : bool) (m : mask) :
  t <> "NONE" -> t <> "GAUSSIAN" -> t <> "PIXEL" ->
  select_conv C a t b m = Err (psf_type_error t).
Proof.
  intros Hn Hg Hp. unfold select_conv.
  apply String.eqb_neq in Hn, Hg, Hp. rewrite Hn, Hg, Hp. reflexivity.
Qed.

(** C4.  A PSF type that is none of NONE, GAUSSIAN and PIXEL never yields an
    engine: the constructor raises.  Once the grid is built (lines 48-53),
    what it raises is the [InvalidConfiguration] of line 83; an error of the
    grid constructor comes first. *)
Theorem unknown_psf_type_fails (C : Collaborators) (a : NumericsArgs) :
  psf_type (psf a) <> "NONE" ->
  psf_type (psf a) <> "GAUSSIAN" ->
  psf_type (psf a) <> "PIXEL" ->
  (forall self, Numerics_init C a <> Ok self)
  /\ Numerics_init C a =
     match grid_new C (grid_call a) with
     | Ok _ => Err (psf_type_error (psf_type (psf a)))
     | Err e => Err e
     end.
Proof.
  intros Hn Hg Hp.
  assert (Heq : Numerics_init C a =
                match grid_new C (grid_call a) with
                | Ok _ => Err (psf_type_error (psf_type (psf a)))
                | Err e => Err e
                end).
  { rewrite Numerics_init_steps. unfold new_grid, rmap, rbind.
    destruct (grid_new C (grid_call a)); [| reflexivity].
    rewrite (select_conv_unknown C a _ _ _ Hn Hg Hp). reflexivity. }
  split; [| exact Heq].
  intros self H. rewrite Heq in H.
  destruct (grid_new C (grid_call a)); discriminate H.
Qed.

Lemma unknown_psf_type_fails_witness :
  let a := default_args example_pixel_grid (example_psf "MOFFAT") in
  (forall self, Numerics_init example_collaborators a <> Ok self)
  /\ Numerics_init example_collaborators a =
     Err (InvalidConfiguration
            "psf_type MOFFAT not valid! Chose either NONE, GAUSSIAN or PIXEL.").
Proof.
  intros a.
  destruct (unknown_psf_type_fails example_collaborators a) as [Hno Heq];
    try (simpl; discriminate).
  split; [exact Hno | rewrite Heq; reflexivity].
Defined.
(** ** Where the constructor can fail *)

Lemma new_conv_Err (C : Collaborators) (c : Convolution) (e : error) :
  new_conv C c = Err e -> conv_new C c = Err e.
Proof.
  unfold new_conv, rmap, rbind.
  destruct (conv_new C c); simpl; intros H; [discriminate H | congruence].
Qed.

Lemma select_conv_Err (C : Collaborators) (a : NumericsArgs) (t : string)
    (b : bool) (m : mask) (e : error) :
  select_conv C a t b m = Err e ->
  e = psf_type_error t \/ exists c, conv_new C c = Err e.
Proof.
  unfold select_conv. intros H.
  destruct (t =? "PIXEL").
  - right.
    destruct ((compute_mode a =? "adaptive") && b);
      [| destruct ((compute_mode a =? "regular") && b)];
      eexists; apply new_conv_Err; exact H.
  - destruct (t =? "GAUSSIAN").
    + right. eexists; apply new_conv_Err; exact H.
    + destruct (t =? "NONE"); [discriminate H |].
      left. congruence.
Qed.

(** An error of the constructor is the PSF type error of line 83 or an error
    of one of the constructors it calls. *)
Lemma Numerics_init_Err (C : Collaborators) (a : NumericsArgs) (e : error) :
  Numerics_init C a = Err e ->
  e = psf_type_error (psf_type (psf a))
  \/ grid_new C (grid_call a) = Err e
  \/ (exists c, conv_new C c = Err e)
  \/ point_source_new C (point_source_call a) = Err e.
Proof.
  rewrite Numerics_init_steps. unfold new_grid, new_point_source, rmap, rbind.
  destruct (grid_new C (grid_call a)) as [[] | eg];
    [| intros H; right; left; congruence].
  destruct (select_conv C a (psf_type (psf a))
              (effective_supersampling_convolution a)
              (effective_supersampled_indexes a)) as [c | ec] eqn:Hc.
  - destruct (point_source_new C (point_source_call a)) as [[] | ep];
      [discriminate |].
    intros H. right; right; right. congruence.
  - intros H. injection H as <-.
    destruct (select_conv_Err _ _ _ _ _ _ Hc) as [-> | Hconv]; auto.
Qed.

Lemma select_conv_returns (C : Collaborators) (a : NumericsArgs) (t : string)
    (b : bool) (m : mask) :
  (forall c, conv_new C c = Ok tt) ->
  known_psf_type t = true ->
  exists oc, select_conv C a t b m = Ok oc.
Proof.
  intros Hc Hk. unfold known_psf_type in Hk.
  unfold select_conv, new_conv, rmap, rbind.
  destruct (t =? "PIXEL").
  - destruct ((compute_mode a =? "adaptive") && b);
      [| destruct ((compute_mode a =? "regular") && b)];
      rewrite Hc; eexists; reflexivity.
  - destruct (t =? "GAUSSIAN").
    + rewrite Hc; eexists; reflexivity.
    + destruct (t =? "NONE"); [eexists; reflexivity | discriminate Hk].
Qed.

(** When the constructors it calls accept and the PSF type is known, the
    constructor returns an engine. *)
Lemma Numerics_init_returns (C : Collaborators) (a : NumericsArgs) :
  grid_new C (grid_call a) = Ok tt ->
  (forall c, conv_new C c = Ok tt) ->
  point_source_new C (point_source_call a) = Ok tt ->
  known_psf_type (psf_type (psf a)) = true ->
  exists self, Numerics_init C a = Ok self.
Proof.
  intros Hg Hc Hp Hk. rewrite Numerics_init_steps.
  unfold new_grid, new_point_source, rmap. rewrite Hg, Hp. simpl.
  destruct (select_conv_returns C a (psf_type (psf a))
              (effective_supersampling_convolution a)
              (effective_supersampled_indexes a) Hc Hk) as [oc ->].
  simpl. eexists; reflexivity.
Qed.

(** ** Evaluation masks *)

Lemma grid_call_regular (a : NumericsArgs) :
  compute_mode a <> "adaptive" ->
  grid_call a =
  RegularGrid (fst (num_pixel_axes (pixel_grid a)))
    (snd (num_pixel_axes (pixel_grid a)))
    (transform_pix2angle (pixel_grid a))
    (fst (radec_at_xy_0 (pixel_grid a)))
    (snd (radec_at_xy_0 (pixel_grid a)))
    (supersampling_factor a) (flux_evaluate_indexes a).
Proof.
  intros H. apply String.eqb_neq in H. unfold grid_call. rewrite H.
  reflexivity.
Qed.

Lemma select_conv_compute_mask (C : Collaborators) (a : NumericsArgs)
    (m : option mask) (t : string) (b : bool) (sup : mask) :
  t <> "PIXEL" \/ compute_mode a <> "adaptive" \/ b = false ->
  select_conv C (with_compute_indexes a m) t b sup = select_conv C a t b sup.
Proof.
  intros H. unfold select_conv. simpl.
  destruct (t =? "PIXEL") eqn:Et; [| reflexivity].
  destruct ((compute_mode a =? "adaptive") && b) eqn:Ea; [| reflexivity].
  exfalso. apply andb_true_iff in Ea as [Ea Eb].
  apply String.eqb_eq in Et, Ea.
  destruct H as [H | [H | H]]; congruence.
Qed.

Lemma select_conv_supersampled_mask (C : Collaborators) (a : NumericsArgs)
    (m : option mask) (t : string) (b : bool) (sup sup' : mask) :
  compute_mode a <> "adaptive" ->
  select_conv C (with_supersampled_indexes a m) t b sup' =
  select_conv C a t b sup.
Proof.
  intros H. apply String.eqb_neq in H. unfold select_conv. simpl.
  rewrite H. reflexivity.
Qed.

(** C5, as the code has it.  The constructor checks no mask shape itself;
    it hands the masks on.  Outside the adaptive mode the supersampled mask
    is not read, and unless the PSF type is PIXEL in adaptive mode with the
    supersampling convolution in force the compute mask is not read: the
    constructor gives the same result whatever such a mask is.  An error of
    the constructor is the PSF type error or an error of a constructor it
    calls (the grid's, which receives the flux_evaluate mask, a
    convolution's, or the base class's). *)
Theorem masks_are_handed_on (C : Collaborators) (a : NumericsArgs)
    (m : option mask) :
  (compute_mode a <> "adaptive" ->
   Numerics_init C (with_supersampled_indexes a m) = Numerics_init C a)
  /\ (psf_type (psf a) <> "PIXEL" \/ compute_mode a <> "adaptive"
      \/ effective_supersampling_convolution a = false ->
      Numerics_init C (with_compute_indexes a m) = Numerics_init C a)
  /\ (forall e, Numerics_init C a = Err e ->
        e = psf_type_error (psf_type (psf a))
        \/ grid_new C (grid_call a) = Err e
        \/ (exists c, conv_new C c = Err e)
        \/ point_source_new C (point_source_call a) = Err e).
Proof.
  split; [| split].
  - intros H. rewrite !Numerics_init_steps.
    rewrite (select_conv_supersampled_mask C a m _ _
               (effective_supersampled_indexes a) _ H).
    assert (Hg : grid_call (with_supersampled_indexes a m) = grid_call a).
    { rewrite !grid_call_regular by exact H. reflexivity. }
    rewrite Hg. reflexivity.
  - intros H. rewrite !Numerics_init_steps.
    rewrite <- (select_conv_compute_mask C a m _ _
                  (effective_supersampled_indexes a) H).
    reflexivity.
  - intros e. apply Numerics_init_Err.
Qed.

Lemma masks_are_handed_on_witness :
  let a := default_args example_pixel_grid (example_psf "NONE") in
  Numerics_init example_collaborators
    (with_supersampled_indexes a (Some small_mask)) =
  Numerics_init example_collaborators a
  /\ Numerics_init example_collaborators
       (with_compute_indexes a (Some small_mask)) =
     Numerics_init example_collaborators a.
Proof.
  intros a.
  destruct (masks_are_handed_on example_collaborators a (Some small_mask))
    as (Hsup & Hcomp & _).
  split.
  - apply Hsup. simpl. discriminate.
  - apply Hcomp. left. simpl. discriminate.
Defined.

(** The grid constructors of the grid model do reject a flux_evaluate mask
    that is not sized (nx, ny). *)
Lemma grid_model_rejects_flux_evaluate
    (blur : Convolution -> image -> option image -> image)
    (a : NumericsArgs) (m : mask) :
  flux_evaluate_indexes a = Some m ->
  GridModel.has_shape (fst (num_pixel_axes (pixel_grid a)))
    (snd (num_pixel_axes (pixel_grid a))) m = false ->
  Numerics_init (spec_collaborators blur) a = Err GridModel.mask_error.
Proof.
  intros Hfe Hshape. rewrite Numerics_init_steps.
  unfold grid_call, new_grid, rmap.
  destruct (compute_mode a =? "adaptive"); simpl; rewrite Hfe; simpl;
    rewrite Hshape, ?andb_false_r; reflexivity.
Qed.

(** C5 as stated fails: on the 10 x 10 sample grid, with PSF type NONE in
    regular mode, a supersampled mask and a compute mask of shape 1 x 1 are
    accepted and an engine is returned. *)
Lemma mask_shape_not_checked :
  let a := with_compute_indexes
             (with_supersampled_indexes
                (default_args example_pixel_grid (example_psf "NONE"))
                (Some small_mask))
             (Some small_mask) in
  GridModel.has_shape 10 10 small_mask = false
  /\ (exists self, Numerics_init example_collaborators a = Ok self)
  /\ (forall msg,
        Numerics_init example_collaborators a <> Err (InvalidConfiguration msg)).
Proof.
  intros a. split; [reflexivity | split].
  - eexists. reflexivity.
  - intros msg H. discriminate H.
Qed.

(** ** The convolution strategy *)

Lemma effective_flag_on (a : NumericsArgs) :
  supersampling_factor a <> 1%Z -> supersampling_convolution a = true ->
  effective_supersampling_convolution a = true.
Proof.
  intros Hf Hc. unfold effective_supersampling_convolution.
  apply Z.eqb_neq in Hf. rewrite Hf. exact Hc.
Qed.

Lemma effective_flag_off (a : NumericsArgs) :
  supersampling_factor a = 1%Z \/ supersampling_convolution a = false ->
  effective_supersampling_convolution a = false.
Proof.
  intros [Hf | Hc]; unfold effective_supersampling_convolution.
  - rewrite Hf. reflexivity.
  - rewrite Hc. destruct (supersampling_factor a =? 1)%Z; reflexivity.
Qed.

(** C6.  The convolution object of a constructed engine is fixed by the PSF
    type, the compute mode and the supersampling-convolution flag in force
    (the caller's flag, off when the supersampling factor is 1):
    - PIXEL, adaptive mode, flag on: the adaptive convolution;
    - PIXEL, regular mode, flag on: the subgrid convolution;
    - PIXEL, flag off: the pixel-kernel convolution, of type fft;
    - GAUSSIAN: a multi-Gaussian convolution of the one component
      sigma = FWHM / (2 sqrt(2 ln 2)), weight 1, truncation 4.
    No run of calls to the engine changes it. *)
Theorem convolution_strategy (C : Collaborators) (a : NumericsArgs)
    (self : Numerics) :
  Numerics_init C a = Ok self ->
  (psf_type (psf a) = "PIXEL" -> compute_mode a = "adaptive" ->
   supersampling_factor a <> 1%Z -> supersampling_convolution a = true ->
   _conv self =
   Some (AdaptiveConvolution
           (kernel_point_source_supersampled (psf a) (supersampling_factor a))
           (supersampling_factor a) (effective_supersampled_indexes a)
           (supersampling_kernel_size a) (compute_indexes a) true true false))
  /\ (psf_type (psf a) = "PIXEL" -> compute_mode a = "regular" ->
      supersampling_factor a <> 1%Z -> supersampling_convolution a = true ->
      _conv self =
      Some (SubgridKernelConvolution
              (kernel_point_source_supersampled (psf a) (supersampling_factor a))
              (supersampling_factor a) (supersampling_kernel_size a) "fft"))
  /\ (psf_type (psf a) = "PIXEL" ->
      supersampling_factor a = 1%Z \/ supersampling_convolution a = false ->
      _conv self =
      Some (PixelKernelConvolution (kernel_point_source (psf a)) "fft"))
  /\ (psf_type (psf a) = "GAUSSIAN" ->
      _conv self =
      Some (MultiGaussianConvolution
              [(fwhm (psf a) / (2 * sqrt (2 * ln 2)))%R] [1%Z]
              (pixel_width (pixel_grid a)) (supersampling_factor a)
              (effective_supersampling_convolution a) 4))
  /\ (forall qs, _conv (snd (serve_all C qs self)) = _conv self).
Proof.
  intros Hinit. apply Numerics_init_Ok in Hinit as (_ & Hsel & _ & _).
  unfold select_conv in Hsel.
  repeat split.
  - intros Hp Hm Hf Hc.
    rewrite Hp, Hm, (effective_flag_on a Hf Hc) in Hsel. simpl in Hsel.
    apply new_conv_Ok in Hsel as [-> _]. reflexivity.
  - intros Hp Hm Hf Hc.
    rewrite Hp, Hm, (effective_flag_on a Hf Hc) in Hsel. simpl in Hsel.
    apply new_conv_Ok in Hsel as [-> _]. reflexivity.
  - intros Hp Hoff.
    rewrite Hp, (effective_flag_off a Hoff), !andb_false_r in Hsel.
    simpl in Hsel. apply new_conv_Ok in Hsel as [-> _]. reflexivity.
  - intros Hg. rewrite Hg in Hsel. simpl in Hsel.
    apply new_conv_Ok in Hsel as [-> _]. reflexivity.
  - intros qs. rewrite serve_all_spec. reflexivity.
Qed.

Lemma convolution_strategy_witness :
  let a := with_supersampling_convolution
             {| pixel_grid := example_pixel_grid;
                psf := example_psf "PIXEL";
                supersampling_factor := 3;
                compute_mode := "regular";
                supersampling_convolution := false;
                supersampling_kernel_size := 5;
                flux_evaluate_indexes := None;
                supersampled_indexes := None;
                compute_indexes := None;
                point_source_supersampling_factor := 1 |} true in
  exists self,
    Numerics_init example_collaborators a = Ok self
    /\ _conv self = Some (SubgridKernelConvolution [[1%R]] 3 5 "fft").
Proof.
  intros a. eexists. split; [reflexivity |].
  refine (proj1 (proj2 (convolution_strategy example_collaborators a _ _))
            _ _ _ _);
    [reflexivity | reflexivity | reflexivity | discriminate | reflexivity].
Defined.

(** A compute mode that is neither adaptive nor regular: the PIXEL branch
    falls through to the pixel-kernel convolution, flag on or off. *)
Lemma pixel_kernel_in_other_modes (C : Collaborators) (a : NumericsArgs)
    (self : Numerics) :
  Numerics_init C a = Ok self ->
  psf_type (psf a) = "PIXEL" ->
  compute_mode a <> "adaptive" -> compute_mode a <> "regular" ->
  _conv self = Some (PixelKernelConvolution (kernel_point_source (psf a)) "fft").
Proof.
  intros Hinit Hp Ha Hr. apply Numerics_init_Ok in Hinit as (_ & Hsel & _ & _).
  unfold select_conv in Hsel. apply String.eqb_neq in Ha, Hr.
  rewrite Hp, Ha, Hr in Hsel. simpl in Hsel.
  apply new_conv_Ok in Hsel as [-> _]. reflexivity.
Qed.

(** ** Determinism *)

(** C9.  Whatever calls were made on an engine before, the engine is the
    object it was (grid, convolution, pixel width and PSF type included),
    [coordinates_evaluate] returns what it returned at first, and
    [re_size_convolve] on the same flux array and flag returns what it would
    have returned at first: the replies in a run of calls are those each
    call gives on the engine as constructed. *)
Theorem numerics_is_pure (C : Collaborators) (self : Numerics)
    (qs : list request) :
  snd (serve_all C qs self) = self
  /\ fst (serve_all C qs self) = map (fun q => fst (serve C q self)) qs
  /\ fst (coordinates_evaluate C (snd (serve_all C qs self))) =
     fst (coordinates_evaluate C self)
  /\ (forall flux_array unconvolved,
        fst (re_size_convolve C flux_array unconvolved
               (snd (serve_all C qs self))) =
        fst (re_size_convolve C flux_array unconvolved self)).
Proof.
  rewrite serve_all_spec. simpl. auto.
Qed.

(** ** The compute mode *)

(** C10.  A compute mode that is not the string adaptive, whatever it is,
    makes the constructor build a [RegularGrid]; the constructor has no
    error for it: when the grid, convolution and base class constructors
    accept and the PSF type is known, an engine is returned, and an error is
    the PSF type error or an error of one of those constructors. *)
Theorem compute_mode_not_validated (C : Collaborators) (a : NumericsArgs) :
  compute_mode a <> "adaptive" ->
  let regular :=
    RegularGrid (fst (num_pixel_axes (pixel_grid a)))
      (snd (num_pixel_axes (pixel_grid a)))
      (transform_pix2angle (pixel_grid a))
      (fst (radec_at_xy_0 (pixel_grid a)))
      (snd (radec_at_xy_0 (pixel_grid a)))
      (supersampling_factor a) (flux_evaluate_indexes a) in
  (forall self, Numerics_init C a = Ok self -> _grid self = regular)
  /\ (grid_new C regular = Ok tt ->
      (forall c, conv_new C c = Ok tt) ->
      point_source_new C (point_source_call a) = Ok tt ->
      known_psf_type (psf_type (psf a)) = true ->
      exists self, Numerics_init C a = Ok self)
  /\ (forall e, Numerics_init C a = Err e ->
        e = psf_type_error (psf_type (psf a))
        \/ grid_new C regular = Err e
        \/ (exists c, conv_new C c = Err e)
        \/ point_source_new C (point_source_call a) = Err e).
Proof.
  intros Hmode regular.
  pose proof (grid_call_regular a Hmode) as Hcall. fold regular in Hcall.
  split; [| split].
  - intros self Hinit. apply Numerics_init_Ok in Hinit as (_ & _ & _ & ->).
    exact Hcall.
  - rewrite <- Hcall. apply Numerics_init_returns.
  - rewrite <- Hcall. intros e. apply Numerics_init_Err.
Qed.

Lemma compute_mode_not_validated_witness :
  let a := with_compute_mode
             (default_args example_pixel_grid (example_psf "GAUSSIAN"))
             "adaptve" in
  exists self,
    Numerics_init example_collaborators a = Ok self
    /\ _grid self = RegularGrid 10 10 ((0.1, 0), (0, 0.1))%R 0 0 1 None.
Proof.
  intros a.
  destruct (compute_mode_not_validated example_collaborators a)
    as (Hgrid & Hret & _); [simpl; discriminate |].
  destruct Hret as [self Hself]; try reflexivity.
  exists self. split; [exact Hself | exact (Hgrid self Hself)].
Defined.

(** ** Flux arrays and the coordinate sequence *)

Section SpecGrid.

Variable blur : Convolution -> image -> option image -> image.

Let C : Collaborators := spec_collaborators blur.

(** The grid accepts a flux array exactly when it is as long as the
    coordinate sequence. *)
Lemma flux_array2image_low_high_length (g : Grid) (flux_array : list R) :
  (List.length flux_array = List.length (GridModel.coordinates_evaluate g) ->
   exists low_high,
     GridModel.flux_array2image_low_high g flux_array = Ok low_high)
  /\ (List.length flux_array <> List.length (GridModel.coordinates_evaluate g)
      -> GridModel.flux_array2image_low_high g flux_array = Err ShapeMismatch).
Proof.
  unfold GridModel.flux_array2image_low_high. split; intros H.
  - apply Nat.eqb_eq in H. rewrite H. eexists; reflexivity.
  - apply Nat.eqb_neq in H. rewrite H. reflexivity.
Qed.

(** C7.  On a constructed engine [re_size_convolve] raises [ShapeMismatch]
    exactly when the flux array is not as long as the sequence
    [coordinates_evaluate] returns: with that length it returns an image,
    with any other it raises and there is no image. *)
Theorem shape_mismatch_exactly (a : NumericsArgs) (self : Numerics)
    (flux_array : list R) (unconvolved : bool) :
  Numerics_init C a = Ok self ->
  exists coordinates,
    fst (coordinates_evaluate C self) = Ok coordinates
    /\ (List.length flux_array = List.length coordinates ->
        exists img,
          fst (re_size_convolve C flux_array unconvolved self) = Ok img)
    /\ (List.length flux_array <> List.length coordinates ->
        fst (re_size_convolve C flux_array unconvolved self)
        = Err ShapeMismatch)
    /\ (fst (re_size_convolve C flux_array unconvolved self)
        = Err ShapeMismatch
        <-> List.length flux_array <> List.length coordinates).
Proof.
  intros Hinit.
  exists (GridModel.coordinates_evaluate (_grid self)).
  split; [reflexivity |].
  assert (Hok : List.length flux_array
                = List.length (GridModel.coordinates_evaluate (_grid self)) ->
                exists img,
                  fst (re_size_convolve C flux_array unconvolved self) = Ok img).
  { intros Hlen. rewrite re_size_convolve_result. simpl.
    destruct (proj1 (flux_array2image_low_high_length (_grid self) flux_array)
                Hlen) as [[lo hi] ->].
    simpl.
    destruct (unconvolved || (_psf_type self =? "NONE")) eqn:Eid; simpl.
    - eexists; reflexivity.
    - apply orb_false_iff in Eid as [_ Enone].
      destruct (constructed_has_conv C a self Hinit Enone) as [c ->].
      simpl. eexists; reflexivity. }
  assert (Herr : List.length flux_array
                 <> List.length (GridModel.coordinates_evaluate (_grid self)) ->
                 fst (re_size_convolve C flux_array unconvolved self)
                 = Err ShapeMismatch).
  { intros Hlen. rewrite re_size_convolve_result. simpl.
    rewrite (proj2 (flux_array2image_low_high_length (_grid self) flux_array)
               Hlen).
    reflexivity. }
  split; [exact Hok | split; [exact Herr | split; [| exact Herr]]].
  intros Hraise Hlen. destruct (Hok Hlen) as [img Himg]. congruence.
Qed.

End SpecGrid.

Lemma shape_mismatch_exactly_witness :
  exists self,
    Numerics_init example_collaborators
      (default_args example_pixel_grid (example_psf "GAUSSIAN")) = Ok self
    /\ exists coordinates,
         fst (coordinates_evaluate example_collaborators self) = Ok coordinates
         /\ List.length coordinates = 100%nat
         /\ fst (re_size_convolve example_collaborators (repeat 1%R 99) false
                   self) = Err ShapeMismatch.
Proof.
  eexists. split; [reflexivity |].
  edestruct (shape_mismatch_exactly no_blur
               (default_args example_pixel_grid (example_psf "GAUSSIAN"))
               _ (repeat 1%R 99) false eq_refl)
    as (coordinates & Hc & _ & Herr & _).
  exists coordinates. split; [exact Hc |].
  injection Hc as <-. split; [reflexivity |].
  apply Herr. vm_compute. discriminate.
Defined.

(** ** The all-ones scenario *)

(** With floats idealised as real numbers: on a 10 x 10 pixel grid of pixel
    width 0.1, with PSF type NONE, supersampling factor 1 and no masks, the
    constructor returns an engine and [re_size_convolve] on 100 flux values
    all equal to 1 returns the 10 x 10 image whose pixels all equal 0.01. *)
Lemma ones_on_ten_by_ten_exact
    (blur : Convolution -> image -> option image -> image)
    (a : NumericsArgs) (unconvolved : bool) :
  num_pixel_axes (pixel_grid a) = (10, 10)%nat ->
  pixel_width (pixel_grid a) = 0.1%R ->
  psf_type (psf a) = "NONE" ->
  supersampling_factor a = 1%Z ->
  flux_evaluate_indexes a = None ->
  supersampled_indexes a = None ->
  exists self,
    Numerics_init (spec_collaborators blur) a = Ok self
    /\ fst (re_size_convolve (spec_collaborators blur) (repeat 1%R 100)
              unconvolved self) =
       Ok (repeat (repeat 0.01%R 10) 10).
Proof.
  intros Haxes Hpw Hnone Hs Hfe Hsup.
  destruct a as [pg p s mode ssc ks fe sup ci pss].
  destruct pg as [pw axes T [ra dec]]. destruct p as [t fw k ksup].
  simpl in *. subst.
  rewrite Numerics_init_steps. unfold grid_call, effective_supersampled_indexes.
  cbn [compute_mode pixel_grid num_pixel_axes fst snd supersampled_indexes
       psf psf_type].
  destruct (mode =? "adaptive"); destruct unconvolved.
  all: eexists; (split; [reflexivity |]); rewrite re_size_convolve_result.
  all: vm_compute; f_equal; image_eq.
Qed.

Section AllOnesBinary64.

Import PrimFloat.

#[local] Set Warnings "-inexact-float".

(** In binary64 the product 1 x (0.1 x 0.1) is 0.010000000000000002
    (0x1.47ae147ae147cp-7), the number next above 0.01
    (0x1.47ae147ae147bp-7). *)
Lemma one_tenth_squared :
  (1 * (0.1 * 0.1) = 0.010000000000000002)%float
  /\ (1 * (0.1 * 0.1))%float = next_up 0.01%float.
Proof. split; vm_compute; reflexivity. Qed.

Lemma one_tenth_squared_not_one_hundredth :
  (1 * (0.1 * 0.1))%float <> 0.01%float.
Proof.
  intros H.
  assert (E : ltb 0.01 (1 * (0.1 * 0.1)) = ltb 0.01 0.01)
    by (rewrite H; reflexivity).
  vm_compute in E. discriminate E.
Qed.

(** The run of the scenario on binary64 numbers: it returns 10 rows of 10
    pixels, and no pixel is the float 0.01. *)
Lemma ones_on_ten_by_ten_not_one_hundredth :
  exists self img,
    Binary64.Numerics_init Binary64.example_collaborators
      (Binary64.default_args Binary64.example_pixel_grid
         (Binary64.example_psf "NONE")) = Ok self
    /\ fst (Binary64.re_size_convolve Binary64.example_collaborators
              (repeat 1%float 100) false self) = Ok img
    /\ List.length img = 10%nat
    /\ Forall (fun row => List.length row = 10%nat) img
    /\ img <> repeat (repeat 0.01%float 10) 10
    /\ Forall (Forall (fun x => x <> 0.01%float)) img.
Proof.
  eexists. exists (repeat (repeat (1 * (0.1 * 0.1))%float 10) 10).
  split; [reflexivity |].
  split; [vm_compute; reflexivity |].
  split; [reflexivity |].
  split; [repeat constructor |].
  split.
  - intros H. apply one_tenth_squared_not_one_hundredth.
    exact (f_equal (fun i => nth 0 (nth 0 i []) 0%float) H).
  - apply Forall_forall. intros row Hrow. apply repeat_spec in Hrow.
    subst row. apply Forall_forall. intros x Hx. apply repeat_spec in Hx.
    subst x. exact one_tenth_squared_not_one_hundredth.
Qed.

(** C8.  On binary64 numbers: on a 10 x 10 pixel grid of pixel width 0.1,
    with PSF type NONE, supersampling factor 1 and no masks, the constructor
    returns an engine and [re_size_convolve] on 100 flux values all equal
    to 1 returns the 10 x 10 image whose pixels all equal the product
    1 x (0.1 x 0.1).  That product is 0.010000000000000002, the number next
    above 0.01, and not 0.01. *)
Theorem ones_on_ten_by_ten_binary64
    (blur : Binary64.Convolution -> Binary64.image -> option Binary64.image
            -> Binary64.image)
    (fwhm2sigma : float -> float)
    (a : Binary64.NumericsArgs) (unconvolved : bool) :
  Binary64.num_pixel_axes (Binary64.pixel_grid a) = (10, 10)%nat ->
  Binary64.pixel_width (Binary64.pixel_grid a) = 0.1%float ->
  Binary64.psf_type (Binary64.psf a) = "NONE" ->
  Binary64.supersampling_factor a = 1%Z ->
  Binary64.flux_evaluate_indexes a = None ->
  Binary64.supersampled_indexes a = None ->
  exists self,
    Binary64.Numerics_init (Binary64.spec_collaborators blur fwhm2sigma) a
    = Ok self
    /\ fst (Binary64.re_size_convolve
              (Binary64.spec_collaborators blur fwhm2sigma)
              (repeat 1%float 100) unconvolved self) =
       Ok (repeat (repeat (1 * (0.1 * 0.1))%float 10) 10)
    /\ (1 * (0.1 * 0.1) = 0.010000000000000002)%float
    /\ (1 * (0.1 * 0.1))%float = next_up 0.01%float
    /\ (1 * (0.1 * 0.1))%float <> 0.01%float.
Proof.
  intros Haxes Hpw Hnone Hs Hfe Hsup.
  destruct a as [pg p s mode ssc ks fe sup ci pss].
  destruct pg as [pw axes T [ra dec]]. destruct p as [t fw k ksup].
  simpl in *. subst.
  unfold Binary64.Numerics_init.
  cbn [Binary64.compute_mode Binary64.pixel_grid Binary64.num_pixel_axes
       Binary64.radec_at_xy_0 Binary64.supersampled_indexes Binary64.psf
       Binary64.psf_type].
  destruct (mode =? "adaptive"); destruct unconvolved.
  all: eexists; split; [reflexivity |].
  all: split; [vm_compute; reflexivity |].
  all: split; [exact (proj1 one_tenth_squared) |].
  all: split; [exact (proj2 one_tenth_squared) |].
  all: exact one_tenth_squared_not_one_hundredth.
Qed.

Lemma ones_on_ten_by_ten_binary64_witness :
  exists self,
    Binary64.Numerics_init Binary64.example_collaborators
      (Binary64.default_args Binary64.example_pixel_grid
         (Binary64.example_psf "NONE")) = Ok self
    /\ fst (Binary64.re_size_convolve Binary64.example_collaborators
              (repeat 1%float 100) false self) =
       Ok (repeat (repeat (1 * (0.1 * 0.1))%float 10) 10)
    /\ (1 * (0.1 * 0.1) = 0.010000000000000002)%float
    /\ (1 * (0.1 * 0.1))%float = next_up 0.01%float
    /\ (1 * (0.1 * 0.1))%float <> 0.01%float.
Proof.
  apply (ones_on_ten_by_ten_binary64 Binary64.no_blur (fun fwhm => fwhm)
           (Binary64.default_args Binary64.example_pixel_grid
              (Binary64.example_psf "NONE")) false);
    reflexivity.
Defined.

End AllOnesBinary64.

(** * Further properties of the Numerics class *)

Lemma select_conv_none (C : Collaborators) (a : NumericsArgs) (b : bool)
    (m : mask) :
  select_conv C a "NONE" b m = Ok None.
Proof. reflexivity. Qed.

(** X18.  A constructed engine has no convolution object exactly when its
    PSF type is NONE, so [re_size_convolve] never calls a method of [None]:
    an [AttributeError] can only come out of the grid or the convolution
    itself. *)
Theorem constructed_conv_matches_psf_type (C : Collaborators)
    (a : NumericsArgs) (self : Numerics) :
  Numerics_init C a = Ok self ->
  (_conv self = None <-> psf_type (psf a) = "NONE")
  /\ (forall flux_array unconvolved,
        fst (re_size_convolve C flux_array unconvolved self)
        = Err AttributeError ->
        grid_flux_array2image_low_high C (_grid self) flux_array
        = Err AttributeError
        \/ exists c lo hi, conv_re_size_convolve C c lo hi = Err AttributeError).
Proof.
  intros Hinit.
  pose proof (Numerics_init_Ok C a self Hinit) as (_ & Hsel & _ & Hself).
  assert (Htype : _psf_type self = psf_type (psf a))
    by (rewrite Hself; reflexivity).
  assert (Hiff : _conv self = None <-> psf_type (psf a) = "NONE").
  { split.
    - intros Hnone.
      destruct (psf_type (psf a) =? "NONE") eqn:E;
        [apply String.eqb_eq; exact E |].
      destruct (select_conv_Some _ _ _ _ _ _ Hsel E) as [c Hc]. congruence.
    - intros Ht. rewrite Ht, select_conv_none in Hsel. congruence. }
  split; [exact Hiff |].
  intros flux_array unconvolved. rewrite re_size_convolve_result.
  unfold rbind.
  destruct (grid_flux_array2image_low_high C (_grid self) flux_array)
    as [[lo hi] | e]; [| intros H; left; congruence].
  destruct (unconvolved || (_psf_type self =? "NONE")) eqn:Eid;
    [discriminate |].
  apply orb_false_iff in Eid as [_ Enone]. rewrite Htype in Enone.
  destruct (_conv self) as [c |] eqn:Hc.
  - destruct (conv_re_size_convolve C c lo hi) as [img | e] eqn:Hconv;
      [discriminate |].
    intros H. right. exists c, lo, hi. congruence.
  - apply String.eqb_neq in Enone. exfalso.
    exact (Enone (proj1 Hiff eq_refl)).
Qed.

Lemma constructed_conv_matches_psf_type_witness :
  exists self,
    Numerics_init example_collaborators
      (default_args example_pixel_grid (example_psf "GAUSSIAN")) = Ok self
    /\ (_conv self = None <-> "GAUSSIAN" = "NONE").
Proof.
  eexists. split; [reflexivity |].
  exact (proj1 (constructed_conv_matches_psf_type example_collaborators
                  (default_args example_pixel_grid (example_psf "GAUSSIAN"))
                  _ eq_refl)).
Defined.

(** X19.  On an engine constructed with a PSF type other than NONE,
    [re_size_convolve] with [unconvolved] False is the convolution's
    [re_size_convolve] of the two images the grid reassembles, with every
    pixel multiplied by the pixel width times the pixel width; it raises
    what the grid or the convolution raises. *)
Theorem re_size_convolve_convolved (C : Collaborators) (a : NumericsArgs)
    (self : Numerics) :
  Numerics_init C a = Ok self ->
  psf_type (psf a) <> "NONE" ->
  exists c,
    _conv self = Some c
    /\ forall flux_array,
         fst (re_size_convolve C flux_array false self) =
         match grid_flux_array2image_low_high C (_grid self) flux_array with
         | Ok (image_low_res, image_high_res_partial) =>
             match conv_re_size_convolve C c image_low_res
                     image_high_res_partial with
             | Ok image_conv =>
                 Ok (map (map (fun x =>
                                 (x * (pixel_width (pixel_grid a)
                                       * pixel_width (pixel_grid a)))%R))
                       image_conv)
             | Err e => Err e
             end
         | Err e => Err e
         end.
Proof.
  intros Hinit Hne.
  pose proof (Numerics_init_Ok C a self Hinit) as (_ & _ & _ & Hself).
  assert (Htype : _psf_type self = psf_type (psf a))
    by (rewrite Hself; reflexivity).
  assert (Hpw : _pixel_width self = pixel_width (pixel_grid a))
    by (rewrite Hself; reflexivity).
  apply String.eqb_neq in Hne.
  destruct (constructed_has_conv C a self Hinit) as [c Hc];
    [rewrite Htype; exact Hne |].
  exists c. split; [exact Hc |].
  intros flux_array. rewrite re_size_convolve_result.
  rewrite Htype, Hne, Hc, Hpw. unfold rbind. simpl.
  destruct (grid_flux_array2image_low_high C (_grid self) flux_array)
    as [[lo hi] | e]; [| reflexivity].
  destruct (conv_re_size_convolve C c lo hi) as [image_conv | e];
    [| reflexivity].
  unfold image_scale. f_equal.
  apply map_ext. intros row. apply map_ext. intros x. ring.
Qed.

Lemma re_size_convolve_convolved_witness :
  exists self c,
    Numerics_init example_collaborators
      (default_args example_pixel_grid (example_psf "GAUSSIAN")) = Ok self
    /\ _conv self = Some c
    /\ fst (re_size_convolve example_collaborators (repeat 1%R 100) false self)
       = match grid_flux_array2image_low_high example_collaborators
                 (_grid self) (repeat 1%R 100) with
         | Ok (image_low_res, image_high_res_partial) =>
             match conv_re_size_convolve example_collaborators c image_low_res
                     image_high_res_partial with
             | Ok image_conv =>
                 Ok (map (map (fun x => (x * (0.1 * 0.1))%R)) image_conv)
             | Err e => Err e
             end
         | Err e => Err e
         end.
Proof.
  eexists.
  edestruct (re_size_convolve_convolved example_collaborators
               (default_args example_pixel_grid (example_psf "GAUSSIAN"))
               _ eq_refl) as (c & Hc & Hrun); [discriminate |].
  exists c. split; [reflexivity | split; [exact Hc | apply Hrun]].
Defined.

(** X20.  The grid and the convolution of a constructed engine are built on
    the same supersampling: the grid has the supersampling factor of the
    call, a convolution that takes a supersampling factor has the same one,
    and an adaptive convolution has the supersampled mask of the (adaptive)
    grid. *)
Theorem grid_and_convolution_agree (C : Collaborators) (a : NumericsArgs)
    (self : Numerics) :
  Numerics_init C a = Ok self ->
  grid_supersampling_factor (_grid self) = supersampling_factor a
  /\ (forall c f, _conv self = Some c ->
        conv_supersampling_factor c = Some f ->
        f = grid_supersampling_factor (_grid self))
  /\ (forall c m, _conv self = Some c ->
        conv_supersample_pixels c = Some m ->
        grid_supersampled_indexes (_grid self) = Some m).
Proof.
  intros Hinit.
  pose proof (Numerics_init_Ok C a self Hinit) as (_ & Hsel & _ & Hself).
  assert (Hgrid : _grid self = grid_call a) by (rewrite Hself; reflexivity).
  assert (Hfactor : grid_supersampling_factor (grid_call a)
                    = supersampling_factor a).
  { unfold grid_call. destruct (compute_mode a =? "adaptive"); reflexivity. }
  rewrite Hgrid. split; [exact Hfactor | split].
  - intros c f Hc Hf. rewrite Hfactor. rewrite Hc in Hsel.
    unfold select_conv in Hsel.
    destruct (psf_type (psf a) =? "PIXEL").
    + destruct ((compute_mode a =? "adaptive")
                && effective_supersampling_convolution a);
        [| destruct ((compute_mode a =? "regular")
                     && effective_supersampling_convolution a)];
        apply new_conv_Ok in Hsel as [Hsel _]; injection Hsel as ->;
        simpl in Hf; congruence.
    + destruct (psf_type (psf a) =? "GAUSSIAN").
      * apply new_conv_Ok in Hsel as [Hsel _]. injection Hsel as ->.
        simpl in Hf. congruence.
      * destruct (psf_type (psf a) =? "NONE"); discriminate Hsel.
  - intros c m Hc Hm. rewrite Hc in Hsel. unfold select_conv in Hsel.
    destruct (psf_type (psf a) =? "PIXEL").
    + destruct (compute_mode a =? "adaptive") eqn:Emode.
      * destruct (effective_supersampling_convolution a); simpl in Hsel.
        -- apply new_conv_Ok in Hsel as [Hsel _]. injection Hsel as ->.
           simpl in Hm. injection Hm as <-.
           unfold grid_call. rewrite Emode. reflexivity.
        -- destruct (compute_mode a =? "regular"); simpl in Hsel;
             apply new_conv_Ok in Hsel as [Hsel _]; injection Hsel as ->;
             discriminate Hm.
      * simpl in Hsel.
        destruct ((compute_mode a =? "regular")
                  && effective_supersampling_convolution a);
          apply new_conv_Ok in Hsel as [Hsel _]; injection Hsel as ->;
          discriminate Hm.
    + destruct (psf_type (psf a) =? "GAUSSIAN").
      * apply new_conv_Ok in Hsel as [Hsel _]. injection Hsel as ->.
        discriminate Hm.
      * destruct (psf_type (psf a) =? "NONE"); discriminate Hsel.
Qed.

Lemma grid_and_convolution_agree_witness :
  let a := {| pixel_grid := example_pixel_grid;
              psf := example_psf "PIXEL";
              supersampling_factor := 3;
              compute_mode := "adaptive";
              supersampling_convolution := true;
              supersampling_kernel_size := 5;
              flux_evaluate_indexes := None;
              supersampled_indexes := None;
              compute_indexes := None;
              point_source_supersampling_factor := 1 |} in
  exists self,
    Numerics_init example_collaborators a = Ok self
    /\ grid_supersampling_factor (_grid self) = 3%Z
    /\ grid_supersampled_indexes (_grid self) = Some (zeros 10 10).
Proof.
  intros a. eexists. split; [reflexivity |].
  edestruct (grid_and_convolution_agree example_collaborators a _ eq_refl)
    as (Hf & _ & Hmask).
  split; [exact Hf |]. eapply Hmask; reflexivity.
Defined.

(** * The update manager: properties *)

Import UpdateManager.

(** ** Dicts *)

Lemma dict_lookup_setitem_eq {A : Type} (d : pydict A) (k : string) (v : A) :
  dict_lookup (dict_setitem d k v) k = Some v.
Proof.
  induction d as [| [k' v'] d IH]; simpl.
  - rewrite String.eqb_refl. reflexivity.
  - destruct (k' =? k) eqn:E; simpl.
    + rewrite String.eqb_refl. reflexivity.
    + rewrite E. exact IH.
Qed.

Lemma dict_lookup_setitem_ne {A : Type} (d : pydict A) (k k' : string) (v : A) :
  k <> k' -> dict_lookup (dict_setitem d k v) k' = dict_lookup d k'.
Proof.
  intros Hne. induction d as [| [k0 v0] d IH]; simpl.
  - apply String.eqb_neq in Hne. rewrite Hne. reflexivity.
  - destruct (k0 =? k) eqn:E; simpl.
    + apply String.eqb_eq in E. subst k0.
      apply String.eqb_neq in Hne. rewrite Hne. reflexivity.
    + destruct (k0 =? k'); [reflexivity | exact IH].
Qed.

Lemma dict_lookup_delitem_eq {A : Type} (d : pydict A) (k : string) :
  dict_lookup (dict_delitem d k) k = None.
Proof.
  unfold dict_delitem. induction d as [| [k' v'] d IH]; simpl.
  - reflexivity.
  - destruct (k' =? k) eqn:E; simpl; [exact IH |].
    rewrite E. exact IH.
Qed.

Lemma dict_lookup_filter {A : Type} (keep : string -> bool) (d : pydict A)
    (k : string) :
  dict_lookup (filter (fun kv => keep (fst kv)) d) k =
  if keep k then dict_lookup d k else None.
Proof.
  induction d as [| [k' v'] d IH]; simpl.
  - destruct (keep k); reflexivity.
  - destruct (k' =? k) eqn:E.
    + apply String.eqb_eq in E. subst k'.
      destruct (keep k) eqn:Ek; simpl.
      * rewrite String.eqb_refl. reflexivity.
      * rewrite IH, ?Ek. reflexivity.
    + destruct (keep k'); simpl; [rewrite E |]; exact IH.
Qed.

Lemma dict_lookup_delitem_ne {A : Type} (d : pydict A) (k k' : string) :
  k <> k' -> dict_lookup (dict_delitem d k) k' = dict_lookup d k'.
Proof.
  intros Hne. unfold dict_delitem.
  rewrite (dict_lookup_filter (fun x => negb (x =? k))).
  apply not_eq_sym in Hne. apply String.eqb_neq in Hne. rewrite Hne.
  reflexivity.
Qed.

Lemma dict_contains_false {A : Type} (d : pydict A) (k : string) :
  dict_contains d k = false <-> dict_lookup d k = None.
Proof.
  unfold dict_contains. destruct (dict_lookup d k); split; congruence.
Qed.

(** Keys that are not in a dict: a filter that drops only such keys keeps
    the dict. *)
Lemma filter_absent {A : Type} (keep : string -> bool) (d : pydict A) :
  (forall k, keep k = false -> dict_lookup d k = None) ->
  filter (fun kv => keep (fst kv)) d = d.
Proof.
  induction d as [| [k' v'] d IH]; simpl; intros H; [reflexivity |].
  destruct (keep k') eqn:E.
  - f_equal. apply IH. intros k Hk. specialize (H k Hk).
    destruct (k' =? k) eqn:E'; [discriminate H | exact H].
  - specialize (H k' E). rewrite String.eqb_refl in H. discriminate H.
Qed.

Lemma filter_setitem_dropped {A : Type} (keep : string -> bool) (d : pydict A)
    (k : string) (v : A) :
  keep k = false ->
  filter (fun kv => keep (fst kv)) (dict_setitem d k v) =
  filter (fun kv => keep (fst kv)) d.
Proof.
  intros Hk. induction d as [| [k' v'] d IH]; simpl.
  - rewrite Hk. reflexivity.
  - destruct (k' =? k) eqn:E; simpl.
    + apply String.eqb_eq in E. subst k'. rewrite Hk. reflexivity.
    + rewrite IH. reflexivity.
Qed.

Lemma filter_all {A : Type} (f : A -> bool) (l : list A) :
  (forall x, f x = true) -> filter f l = l.
Proof.
  intros H. induction l as [| x l IH]; simpl; [reflexivity |].
  rewrite H, IH. reflexivity.
Qed.

Lemma filter_filter {A : Type} (f g : A -> bool) (l : list A) :
  filter f (filter g l) = filter (fun x => g x && f x) l.
Proof.
  induction l as [| x l IH]; simpl; [reflexivity |].
  destruct (g x); simpl; [destruct (f x); simpl; rewrite IH |];
    try reflexivity; exact IH.
Qed.

(** ** Lists *)

Lemma forallb_eq {A : Type} (f g : A -> bool) (l : list A) :
  (forall x, f x = g x) -> forallb f l = forallb g l.
Proof.
  intros H. induction l as [| x l IH]; simpl; [reflexivity |].
  rewrite H, IH. reflexivity.
Qed.

Lemma list_position_lt {A : Type} (l : list A) (i : Z) (n : nat) :
  list_position l i = Some n -> n < List.length l.
Proof.
  unfold list_position.
  destruct (0 <=? i)%Z eqn:E0.
  - destruct (i <? Z.of_nat (List.length l))%Z eqn:E1; [| discriminate].
    intros H. injection H as <-. lia.
  - destruct (- Z.of_nat (List.length l) <=? i)%Z eqn:E1; [| discriminate].
    intros H. injection H as <-. lia.
Qed.

Lemma list_position_length {A B : Type} (l : list A) (l' : list B) (i : Z) :
  List.length l = List.length l' -> list_position l i = list_position l' i.
Proof. unfold list_position. intros ->. reflexivity. Qed.

Lemma length_replace_at {A : Type} (n : nat) (x : A) (l : list A) :
  List.length (replace_at n x l) = List.length l.
Proof.
  revert n. induction l as [| y l IH]; intros [| n]; simpl; auto.
Qed.

Lemma nth_error_replace_at_eq {A : Type} (n : nat) (x : A) (l : list A) :
  n < List.length l -> nth_error (replace_at n x l) n = Some x.
Proof.
  revert n. induction l as [| y l IH]; intros [| n]; simpl; intros H;
    try lia; [reflexivity | apply IH; lia].
Qed.

Lemma nth_error_replace_at_ne {A : Type} (n m : nat) (x : A) (l : list A) :
  n <> m -> nth_error (replace_at n x l) m = nth_error l m.
Proof.
  revert n m. induction l as [| y l IH]; intros [| n] [| m] H; simpl;
    try reflexivity; try congruence.
  apply IH. congruence.
Qed.

Lemma replace_at_same {A : Type} (n : nat) (x : A) (l : list A) :
  nth_error l n = Some x -> replace_at n x l = l.
Proof.
  revert n. induction l as [| y l IH]; intros [| n]; simpl; intros H;
    try discriminate.
  - congruence.
  - f_equal. apply IH. exact H.
Qed.

Lemma list_position_nth {A : Type} (l : list A) (i : Z) (n : nat) :
  list_position l i = Some n -> exists x, nth_error l n = Some x.
Proof.
  intros H. apply list_position_lt in H.
  destruct (nth_error l n) eqn:E; [eexists; reflexivity |].
  apply nth_error_None in E. lia.
Qed.

(** [kwargs[i][k] = v] returns exactly when the index is in range. *)
Lemma setitem_at_Return {A : Type} (kw : list (pydict A)) (i : Z) (k : string)
    (v : A) (kw' : list (pydict A)) :
  setitem_at kw i k v = Return kw' <->
  exists n d, list_position kw i = Some n /\ nth_error kw n = Some d
              /\ kw' = replace_at n (dict_setitem d k v) kw.
Proof.
  unfold setitem_at. split.
  - destruct (list_position kw i) as [n |]; [| discriminate].
    destruct (nth_error kw n) as [d |] eqn:E; [| discriminate].
    intros H. injection H as <-. eauto.
  - intros (n & d & -> & -> & ->). reflexivity.
Qed.

Lemma setitem_at_Raise {A : Type} (kw : list (pydict A)) (i : Z) (k : string)
    (v : A) (e : exn) :
  setitem_at kw i k v = Raise e <->
  list_position kw i = None /\ e = IndexError.
Proof.
  unfold setitem_at. split.
  - destruct (list_position kw i) as [n |] eqn:E.
    + destruct (list_position_nth _ _ _ E) as [d ->]. discriminate.
    + intros H. injection H as <-. auto.
  - intros [-> ->]. reflexivity.
Qed.

Lemma setitem_at_length {A : Type} (kw kw' : list (pydict A)) (i : Z)
    (k : string) (v : A) :
  setitem_at kw i k v = Return kw' -> List.length kw' = List.length kw.
Proof.
  intros H. apply setitem_at_Return in H as (n & d & _ & _ & ->).
  apply length_replace_at.
Qed.

Lemma in_range_Some {A : Type} (l : list A) (i : Z) (n : nat) :
  list_position l i = Some n -> in_range l i = true.
Proof. unfold in_range. intros ->. reflexivity. Qed.

Lemma in_range_true {A : Type} (l : list A) (i : Z) :
  in_range l i = true -> exists n, list_position l i = Some n.
Proof.
  unfold in_range. destruct (list_position l i) as [n |];
    [eexists; reflexivity | discriminate].
Qed.

Lemma in_range_length {A B : Type} (l : list A) (l' : list B) (i : Z) :
  List.length l = List.length l' -> in_range l i = in_range l' i.
Proof.
  intros H. unfold in_range. rewrite (list_position_length l l' i H).
  reflexivity.
Qed.

Lemma param_at_replace_eq {V : Type} (kw : kwargs_list V) (n : nat)
    (d : kwargs V) (k : string) :
  n < List.length kw -> param_at (replace_at n d kw) n k = dict_lookup d k.
Proof.
  intros H. unfold param_at. rewrite nth_error_replace_at_eq by exact H.
  reflexivity.
Qed.

Lemma param_at_replace_ne {V : Type} (kw : kwargs_list V) (n m : nat)
    (d : kwargs V) (k : string) :
  n <> m -> param_at (replace_at n d kw) m k = param_at kw m k.
Proof.
  intros H. unfold param_at. rewrite nth_error_replace_at_ne by exact H.
  reflexivity.
Qed.

(** ** _update_limit *)

Section UpdateLimit.

Variable V : Type.

Implicit Types (kw : kwargs_list V) (values : list (value V))
  (names : list string) (item : entry V) (change : list (entry V)).

Lemma assign_limits_returns kw i values j names :
  names = [] \/ (in_range kw i = true
                 /\ j + List.length names <= List.length values) ->
  exists kw', assign_limits kw i values j names = Return kw'
              /\ List.length kw' = List.length kw.
Proof.
  revert kw j. induction names as [| k rest IH]; intros kw j H; simpl.
  - eexists; split; reflexivity.
  - destruct H as [H | [Hi Hlen]]; [discriminate H |]. simpl in Hlen.
    unfold seq_getitem.
    destruct (nth_error values j) as [v |] eqn:Ev;
      [| apply nth_error_None in Ev; lia].
    simpl. destruct (in_range_true _ _ Hi) as [n En].
    destruct (list_position_nth _ _ _ En) as [d Hd].
    assert (Hset : setitem_at kw i k v
                   = Return (replace_at n (dict_setitem d k v) kw)).
    { apply setitem_at_Return. eauto. }
    rewrite Hset. simpl.
    destruct (IH (replace_at n (dict_setitem d k v) kw) (S j)) as (kw' & -> & Hl).
    + right. split; [| lia].
      rewrite (in_range_length _ kw) by apply length_replace_at.
      exact Hi.
    + eexists. split; [reflexivity |].
      rewrite Hl. apply length_replace_at.
Qed.

Lemma assign_limits_raises kw i values j names :
  names <> [] ->
  in_range kw i = false \/ List.length values < j + List.length names ->
  assign_limits kw i values j names = Raise IndexError.
Proof.
  revert kw j. induction names as [| k rest IH]; intros kw j Hne H;
    [congruence |].
  simpl. unfold seq_getitem.
  destruct (nth_error values j) as [v |] eqn:Ev; [| reflexivity].
  simpl.
  destruct (setitem_at kw i k v) as [kw1 |] eqn:Hset.
  - simpl. pose proof (setitem_at_length _ _ _ _ _ Hset) as Hl.
    apply setitem_at_Return in Hset as (n & d & Hn & _ & _).
    pose proof (in_range_Some _ _ _ Hn) as Hin.
    destruct H as [H | H]; [congruence |]. simpl in H.
    destruct rest as [| k2 rest].
    + simpl in H. assert (j < List.length values)
        by (apply nth_error_Some; congruence). lia.
    + apply IH; [discriminate |]. right. simpl. simpl in H. lia.
  - apply setitem_at_Raise in Hset as [_ ->]. reflexivity.
Qed.

Lemma update_limit_loop_returns change kw :
  forallb (limit_entry_fits kw) change = true ->
  exists kw', update_limit_loop change kw = Return kw'
              /\ List.length kw' = List.length kw.
Proof.
  revert kw. induction change as [| item rest IH]; intros kw H; simpl.
  - eexists; split; reflexivity.
  - simpl in H. apply andb_true_iff in H as [Hitem Hrest].
    unfold limit_entry_fits in Hitem. unfold entry_third.
    destruct (entry_values item) as [values |]; [| discriminate Hitem].
    simpl.
    destruct (assign_limits_returns kw (entry_index item) values 0
                (entry_names item)) as (kw1 & -> & Hl).
    { destruct (entry_names item) as [| k names]; [left; reflexivity |].
      right. apply andb_true_iff in Hitem as [Hi Hlen].
      apply Nat.leb_le in Hlen. split; [exact Hi | simpl; simpl in Hlen; lia]. }
    simpl. destruct (IH kw1) as (kw' & -> & Hl').
    + rewrite <- Hrest. apply forallb_eq. intros it.
      unfold limit_entry_fits.
      rewrite (in_range_length kw1 kw) by exact Hl. reflexivity.
    + eexists. split; [reflexivity | congruence].
Qed.

Lemma update_limit_loop_raises change kw :
  forallb (limit_entry_fits kw) change = false ->
  update_limit_loop change kw = Raise IndexError.
Proof.
  revert kw. induction change as [| item rest IH]; intros kw H; simpl in *;
    [discriminate H |].
  destruct (limit_entry_fits kw item) eqn:Hitem; simpl in H.
  - destruct (update_limit_loop_returns [item] kw) as (kw1 & H1 & Hl).
    { simpl. rewrite Hitem. reflexivity. }
    simpl in H1. unfold obind in *.
    destruct (entry_third item) as [values |]; [| discriminate H1].
    destruct (assign_limits kw (entry_index item) values 0 (entry_names item))
      as [kw2 |]; [| discriminate H1].
    injection H1 as ->. apply IH. rewrite <- H. apply forallb_eq.
    intros it. unfold limit_entry_fits.
    rewrite (in_range_length kw1 kw) by exact Hl. reflexivity.
  - unfold limit_entry_fits in Hitem. unfold entry_third.
    destruct (entry_values item) as [values |]; [| reflexivity].
    simpl. rewrite assign_limits_raises; [reflexivity | |].
    + destruct (entry_names item); [discriminate Hitem | discriminate].
    + destruct (entry_names item) as [| k names] eqn:En;
        [discriminate Hitem |].
      apply andb_false_iff in Hitem as [Hi | Hlen]; [left; exact Hi |].
      right. apply Nat.leb_gt in Hlen. simpl. simpl in Hlen. lia.
Qed.

(** X1.  [_update_limit] returns exactly when every entry has values and,
    if it names parameters, an index in range and a value for each name;
    the list it returns is as long as the one it was given.  Otherwise it
    raises [IndexError], and nothing else: a parameter name that is new to a
    dict is no error. *)
Theorem update_limit_returns_or_index_error change kw :
  (forallb (limit_entry_fits kw) change = true ->
   exists kw', _update_limit change kw = Return kw'
               /\ List.length kw' = List.length kw)
  /\ (forallb (limit_entry_fits kw) change = false ->
      _update_limit change kw = Raise IndexError).
Proof.
  unfold _update_limit, deepcopy. split.
  - apply update_limit_loop_returns.
  - apply update_limit_loop_raises.
Qed.

(** What the inner loop leaves behind. *)
Lemma assign_limits_params kw kw' i n values j names :
  assign_limits kw i values j names = Return kw' ->
  list_position kw i = Some n ->
  (forall m k, m <> n -> param_at kw' m k = param_at kw m k)
  /\ (forall k, ~ In k names -> param_at kw' n k = param_at kw n k)
  /\ (forall q k, nth_error names q = Some k ->
        ~ In k (skipn (S q) names) ->
        param_at kw' n k = nth_error values (j + q)).
Proof.
  revert kw j. induction names as [| k0 rest IH]; intros kw j Hrun Hn.
  - simpl in Hrun. injection Hrun as <-. repeat split; auto.
    intros [| q] k H; discriminate H.
  - simpl in Hrun. unfold seq_getitem in Hrun.
    destruct (nth_error values j) as [v |] eqn:Ev; [| discriminate Hrun].
    simpl in Hrun.
    destruct (setitem_at kw i k0 v) as [kw1 |] eqn:Hset; [| discriminate Hrun].
    simpl in Hrun.
    apply setitem_at_Return in Hset as (n' & d & Hn' & Hd & ->).
    assert (n' = n) by congruence. subst n'.
    pose proof (list_position_lt _ _ _ Hn) as Hlt.
    set (kw1 := replace_at n (dict_setitem d k0 v) kw) in *.
    assert (Hn1 : list_position kw1 i = Some n).
    { rewrite <- Hn. apply list_position_length. apply length_replace_at. }
    destruct (IH kw1 (S j) Hrun Hn1) as (Hother & Hframe & Hwrite).
    assert (Hd' : forall k, param_at kw n k = dict_lookup d k).
    { intros k. unfold param_at. rewrite Hd. reflexivity. }
    repeat split.
    + intros m k Hm. rewrite Hother by exact Hm.
      apply param_at_replace_ne. congruence.
    + intros k Hk. rewrite Hframe by (intros Hin; apply Hk; right; exact Hin).
      unfold kw1. rewrite param_at_replace_eq by exact Hlt.
      rewrite Hd'. apply dict_lookup_setitem_ne.
      intros ->. apply Hk. left. reflexivity.
    + intros [| q] k Hq Hlast.
      * simpl in Hq. injection Hq as ->. simpl in Hlast.
        rewrite Hframe by exact Hlast.
        unfold kw1. rewrite param_at_replace_eq by exact Hlt.
        rewrite dict_lookup_setitem_eq, Nat.add_0_r. symmetry. exact Ev.
      * simpl in Hq. rewrite (Hwrite q k Hq Hlast). f_equal. lia.
Qed.

Lemma assign_limits_out_of_range kw kw' i values j names :
  assign_limits kw i values j names = Return kw' ->
  list_position kw i = None -> kw' = kw.
Proof.
  destruct names as [| k rest]; simpl; intros Hrun Hn.
  - congruence.
  - unfold seq_getitem in Hrun.
    destruct (nth_error values j) as [v |]; [| discriminate Hrun].
    simpl in Hrun.
    destruct (setitem_at kw i k v) as [kw1 |] eqn:Hset; [| discriminate Hrun].
    apply setitem_at_Return in Hset as (n & d & Hn' & _). congruence.
Qed.

Lemma assign_limits_length kw kw' i values j names :
  assign_limits kw i values j names = Return kw' ->
  List.length kw' = List.length kw.
Proof.
  revert kw j. induction names as [| k rest IH]; intros kw j Hrun;
    simpl in Hrun.
  - congruence.
  - unfold seq_getitem in Hrun.
    destruct (nth_error values j) as [v |]; [| discriminate Hrun].
    simpl in Hrun.
    destruct (setitem_at kw i k v) as [kw1 |] eqn:Hset; [| discriminate Hrun].
    simpl in Hrun. rewrite (IH _ _ Hrun).
    exact (setitem_at_length _ _ _ _ _ Hset).
Qed.

Lemma names_param_length kw kw1 change n k :
  List.length kw1 = List.length kw ->
  names_param kw1 change n k = names_param kw change n k.
Proof.
  intros Hl. unfold names_param. induction change as [| item rest IH]; simpl;
    [reflexivity |].
  rewrite (list_position_length kw1 kw) by exact Hl. rewrite IH. reflexivity.
Qed.

Lemma not_in_names names k :
  existsb (String.eqb k) names = false -> ~ In k names.
Proof.
  intros H Hin. assert (existsb (String.eqb k) names = true).
  { apply existsb_exists. exists k. split; [exact Hin | apply String.eqb_refl]. }
  congruence.
Qed.

(** One step of the outer loop. *)
Lemma update_limit_loop_cons item change kw kw' :
  update_limit_loop (item :: change) kw = Return kw' ->
  exists values kw1,
    entry_values item = Some values
    /\ assign_limits kw (entry_index item) values 0 (entry_names item)
       = Return kw1
    /\ update_limit_loop change kw1 = Return kw'.
Proof.
  simpl. unfold entry_third.
  destruct (entry_values item) as [values |]; [| discriminate].
  simpl.
  destruct (assign_limits kw (entry_index item) values 0 (entry_names item))
    as [kw1 |] eqn:H1; [| discriminate].
  simpl. intros H. exists values, kw1. auto.
Qed.

Lemma update_limit_loop_frame change kw kw' n k :
  update_limit_loop change kw = Return kw' ->
  names_param kw change n k = false ->
  param_at kw' n k = param_at kw n k.
Proof.
  revert kw. induction change as [| item rest IH]; intros kw Hrun Hnot.
  - simpl in Hrun. congruence.
  - apply update_limit_loop_cons in Hrun as (values & kw1 & Hv & H1 & Hrest).
    simpl in Hnot. apply orb_false_iff in Hnot as [Hitem Hnot].
    pose proof (assign_limits_length _ _ _ _ _ _ H1) as Hl.
    rewrite (IH kw1 Hrest)
      by (rewrite (names_param_length kw kw1) by exact Hl; exact Hnot).
    destruct (list_position kw (entry_index item)) as [m |] eqn:Hm.
    + destruct (assign_limits_params _ _ _ _ _ _ _ H1 Hm)
        as (Hother & Hframe & _).
      destruct (Nat.eqb_spec m n) as [-> | Hne].
      * simpl in Hitem. apply Hframe. apply not_in_names. exact Hitem.
      * apply Hother. congruence.
    + rewrite (assign_limits_out_of_range _ _ _ _ _ _ H1 Hm). reflexivity.
Qed.

(** X2.  A parameter of a model that no entry names comes out of
    [_update_limit] as it went in: a parameter it had keeps its value, one
    it did not have is still missing. *)
Theorem update_limit_keeps_unnamed change kw kw' n k :
  _update_limit change kw = Return kw' ->
  names_param kw change n k = false ->
  param_at kw' n k = param_at kw n k.
Proof.
  unfold _update_limit, deepcopy. apply update_limit_loop_frame.
Qed.

Lemma update_limit_loop_app change1 change2 kw :
  update_limit_loop (change1 ++ change2) kw =
  (kw1 <- update_limit_loop change1 kw ;; update_limit_loop change2 kw1)%outcome.
Proof.
  revert kw. induction change1 as [| item rest IH]; intros kw; simpl.
  - reflexivity.
  - destruct (entry_third item) as [values |]; [| reflexivity]. simpl.
    destruct (assign_limits kw (entry_index item) values 0 (entry_names item))
      as [kw1 |]; [| reflexivity].
    simpl. apply IH.
Qed.

(** X3.  After [_update_limit] has returned, a parameter an entry names has
    the value the entry gives at the position of the name (of its last
    occurrence, if the entry lists the name more than once), provided no
    later entry names the parameter. *)
Theorem update_limit_sets_named before item after kw kw' n values q k :
  _update_limit (before ++ item :: after) kw = Return kw' ->
  list_position kw (entry_index item) = Some n ->
  entry_values item = Some values ->
  nth_error (entry_names item) q = Some k ->
  ~ In k (skipn (S q) (entry_names item)) ->
  names_param kw after n k = false ->
  param_at kw' n k = nth_error values q.
Proof.
  unfold _update_limit, deepcopy. rewrite update_limit_loop_app.
  destruct (update_limit_loop before kw) as [kw0 |] eqn:H0; [| discriminate].
  cbv beta iota delta [obind]. intros Hrun Hn Hv Hq Hlast Hafter.
  assert (Hl0 : List.length kw0 = List.length kw).
  { destruct (forallb (limit_entry_fits kw) before) eqn:Hfit.
    - destruct (update_limit_loop_returns before kw Hfit) as (kw0' & E & Hl).
      congruence.
    - rewrite (update_limit_loop_raises before kw Hfit) in H0. discriminate. }
  apply update_limit_loop_cons in Hrun as (values' & kw1 & Hv' & H1 & Hrest).
  assert (values' = values) by congruence. subst values'.
  pose proof (assign_limits_length _ _ _ _ _ _ H1) as Hl1.
  assert (Hn0 : list_position kw0 (entry_index item) = Some n).
  { rewrite <- Hn. apply list_position_length. exact Hl0. }
  destruct (assign_limits_params _ _ _ _ _ _ _ H1 Hn0) as (_ & _ & Hwrite).
  rewrite (update_limit_loop_frame after kw1 kw' n k Hrest).
  - apply (Hwrite q k Hq Hlast).
  - rewrite (names_param_length kw kw1) by congruence. exact Hafter.
Qed.

(** X4.  One call of [_update_limit] with two lists of entries one after
    the other does what two calls in a row do, the second on the result of
    the first, errors included. *)
Theorem update_limit_app change1 change2 kw :
  _update_limit (change1 ++ change2) kw =
  (kw1 <- _update_limit change1 kw ;; _update_limit change2 kw1)%outcome.
Proof.
  unfold _update_limit, deepcopy. apply update_limit_loop_app.
Qed.

End UpdateLimit.

Lemma update_limit_returns_or_index_error_witness :
  let kw : kwargs_list Z := [[("amp", Some 1%Z)]; [("amp", Some 2%Z)]] in
  (exists kw',
     _update_limit
       [{| entry_index := (-1)%Z; entry_names := ["amp"; "R_sersic"];
           entry_values := Some [Some 5%Z; Some 6%Z] |}] kw = Return kw'
     /\ List.length kw' = 2)
  /\ _update_limit
       [{| entry_index := 2%Z; entry_names := ["amp"];
           entry_values := Some [Some 5%Z] |}] kw = Raise IndexError.
Proof.
  intros kw. split.
  - apply (proj1 (update_limit_returns_or_index_error Z _ kw)). reflexivity.
  - apply (proj2 (update_limit_returns_or_index_error Z _ kw)). reflexivity.
Defined.

Lemma update_limit_keeps_unnamed_witness :
  let kw : kwargs_list Z := [[("amp", Some 1%Z); ("e1", Some 3%Z)]] in
  exists kw',
    _update_limit
      [{| entry_index := 0%Z; entry_names := ["amp"];
          entry_values := Some [Some 5%Z] |}] kw = Return kw'
    /\ param_at kw' 0 "e1" = Some (Some 3%Z).
Proof.
  intros kw. exists [[("amp", Some 5%Z); ("e1", Some 3%Z)]].
  split; [reflexivity |].
  rewrite (update_limit_keeps_unnamed Z
             [{| entry_index := 0%Z; entry_names := ["amp"];
                 entry_values := Some [Some 5%Z] |}]
             kw [[("amp", Some 5%Z); ("e1", Some 3%Z)]] 0 "e1");
    reflexivity.
Defined.

Lemma update_limit_sets_named_witness :
  let kw : kwargs_list Z := [[("amp", Some 1%Z)]; [("amp", Some 2%Z)]] in
  exists kw',
    _update_limit
      [{| entry_index := (-1)%Z; entry_names := ["amp"; "R_sersic"];
          entry_values := Some [Some 5%Z; Some 6%Z] |}] kw = Return kw'
    /\ param_at kw' 1 "R_sersic" = Some (Some 6%Z).
Proof.
  intros kw.
  exists [[("amp", Some 1%Z)]; [("amp", Some 5%Z); ("R_sersic", Some 6%Z)]].
  split; [reflexivity |].
  apply (update_limit_sets_named Z []
           {| entry_index := (-1)%Z; entry_names := ["amp"; "R_sersic"];
              entry_values := Some [Some 5%Z; Some 6%Z] |}
           [] kw _ 1 [Some 5%Z; Some 6%Z] 1 "R_sersic"); try reflexivity.
  simpl. tauto.
Defined.

(** ** _add_fixed and _remove_fixed *)

Section Fixed.

Variable V : Type.

Implicit Types (kf kw : kwargs_list V) (km : option (kwargs_list V))
  (values : list (value V)) (names : list string) (item : entry V)
  (items : list (entry V)).

Lemma fix_params_explicit km kf i values j names :
  forallb (fun v => match v with Some _ => true | None => false end) values
  = true ->
  match assign_limits kf i values j names with
  | Return kf' => fix_params km kf i values j names = (kf', None)
  | Raise e => snd (fix_params km kf i values j names) = Some e
  end.
Proof.
  intros Hall. revert kf j. induction names as [| k rest IH]; intros kf j;
    simpl; [reflexivity |].
  unfold seq_getitem. destruct (nth_error values j) as [vj |] eqn:Ev;
    simpl; [| reflexivity].
  assert (Hvj : fixed_value km i k vj = Return vj).
  { apply nth_error_In in Ev.
    rewrite forallb_forall in Hall. specialize (Hall vj Ev).
    destruct vj; [reflexivity | discriminate Hall]. }
  rewrite Hvj. simpl.
  destruct (setitem_at kf i k vj) as [kf1 |]; simpl; [apply IH | reflexivity].
Qed.

(** X5.  On entries that give their values, none of them [None],
    [_add_fixed] does to the fixed parameters what [_update_limit] does to
    limits, whatever the model parameters are: it returns the list
    [_update_limit] returns, and raises what [_update_limit] raises. *)
Theorem add_fixed_with_values km kf items :
  forallb gives_values items = true ->
  match _update_limit items kf with
  | Return kf' => _add_fixed km kf items = (kf', None)
  | Raise e => snd (_add_fixed km kf items) = Some e
  end.
Proof.
  unfold _update_limit, deepcopy. revert kf.
  induction items as [| item rest IH]; intros kf Hall; simpl;
    [reflexivity |].
  simpl in Hall. apply andb_true_iff in Hall as [Hitem Hrest].
  unfold gives_values in Hitem. unfold entry_third, entry_values_or_none.
  destruct (entry_values item) as [values |]; [| discriminate Hitem].
  simpl.
  pose proof (fix_params_explicit km kf (entry_index item) values 0
                (entry_names item) Hitem) as Hfix.
  destruct (assign_limits kf (entry_index item) values 0 (entry_names item))
    as [kf1 | e]; simpl.
  - rewrite Hfix. apply IH. exact Hrest.
  - destruct (fix_params km kf (entry_index item) values 0 (entry_names item))
      as [kf1 [e' |]]; simpl in Hfix; [exact Hfix | discriminate Hfix].
Qed.


(** The inner loop of [_add_fixed]: the list keeps its length, models other
    than the one indexed are left alone, and in that one only the named
    parameters are touched, also when the loop raises. *)
Lemma fix_params_touches km kf kf' e i values j names :
  fix_params km kf i values j names = (kf', e) ->
  List.length kf' = List.length kf
  /\ (forall n, list_position kf i <> Some n ->
        nth_error kf' n = nth_error kf n)
  /\ (forall n (keep : string -> bool),
        list_position kf i = Some n ->
        (forall k, In k names -> keep k = false) ->
        option_map (filter (fun kv => keep (fst kv))) (nth_error kf' n) =
        option_map (filter (fun kv => keep (fst kv))) (nth_error kf n)).
Proof.
  revert kf j. induction names as [| k0 rest IH]; intros kf j Hrun;
    simpl in Hrun.
  - injection Hrun as <- <-. auto.
  - destruct (vj <- seq_getitem values j;;
              v <- fixed_value km i k0 vj;; setitem_at kf i k0 v)%outcome
      as [kf1 | e1] eqn:Hstep.
    2:{ injection Hrun as <- <-. auto. }
    destruct (seq_getitem values j) as [vj |]; [| discriminate Hstep].
    simpl in Hstep.
    destruct (fixed_value km i k0 vj) as [v |]; [| discriminate Hstep].
    simpl in Hstep.
    apply setitem_at_Return in Hstep as (n0 & d & Hn0 & Hd & ->).
    pose proof (list_position_lt _ _ _ Hn0) as Hlt.
    set (kf1 := replace_at n0 (dict_setitem d k0 v) kf) in *.
    assert (Hl1 : List.length kf1 = List.length kf)
      by apply length_replace_at.
    destruct (IH kf1 (S j) Hrun) as (Hl & Hother & Hkeep).
    rewrite (list_position_length kf1 kf) in Hother, Hkeep by exact Hl1.
    split; [congruence | split].
    + intros n Hn. rewrite (Hother n Hn).
      apply nth_error_replace_at_ne. congruence.
    + intros n keep Hn Hnames.
      assert (n0 = n) by congruence. subst n0.
      rewrite (Hkeep n keep Hn)
        by (intros k Hk; apply Hnames; right; exact Hk).
      unfold kf1. rewrite nth_error_replace_at_eq by exact Hlt.
      rewrite Hd. simpl. f_equal. apply filter_setitem_dropped.
      apply Hnames. left. reflexivity.
Qed.

Lemma fix_params_in_range km kf kf' i values j names :
  fix_params km kf i values j names = (kf', None) ->
  names <> [] -> in_range kf i = true.
Proof.
  destruct names as [| k rest]; [congruence |]. simpl. intros Hrun _.
  destruct (seq_getitem values j) as [vj |]; [| discriminate Hrun].
  simpl in Hrun.
  destruct (fixed_value km i k vj) as [v |]; [| discriminate Hrun].
  simpl in Hrun.
  destruct (setitem_at kf i k v) as [kf1 |] eqn:Hset; [| discriminate Hrun].
  apply setitem_at_Return in Hset as (n & d & Hn & _).
  exact (in_range_Some _ _ _ Hn).
Qed.

(** The parameters named by no entry, [_add_fixed] leaves where they are. *)
Lemma add_fixed_touches km kf kf' e items :
  _add_fixed km kf items = (kf', e) ->
  List.length kf' = List.length kf
  /\ (forall n, option_map (without_named kf items n) (nth_error kf' n) =
                option_map (without_named kf items n) (nth_error kf n))
  /\ (e = None -> forallb (remove_entry_fits kf) items = true).
Proof.
  revert kf. induction items as [| item rest IH]; intros kf Hrun;
    simpl in Hrun.
  - injection Hrun as <- <-. auto.
  - destruct (fix_params km kf (entry_index item) (entry_values_or_none item)
                0 (entry_names item)) as [kf1 e1] eqn:Hfix.
    destruct (fix_params_touches _ _ _ _ _ _ _ _ Hfix)
      as (Hl1 & Hother & Hkeep).
    assert (Hstep : forall n,
               option_map (without_named kf (item :: rest) n) (nth_error kf1 n)
               = option_map (without_named kf (item :: rest) n)
                   (nth_error kf n)).
    { intros n.
      destruct (list_position kf (entry_index item)) as [m |] eqn:Hm.
      - destruct (Nat.eq_dec m n) as [-> | Hne].
        + unfold without_named.
          apply (Hkeep n (fun k => negb (names_param kf (item :: rest) n k)))
          ; [reflexivity |].
          intros k Hk. simpl. rewrite Hm, Nat.eqb_refl. simpl.
          assert (Hex : existsb (String.eqb k) (entry_names item) = true).
          { apply existsb_exists. exists k.
            split; [exact Hk | apply String.eqb_refl]. }
          rewrite Hex. reflexivity.
        + rewrite Hother by congruence. reflexivity.
      - rewrite Hother by congruence. reflexivity. }
    destruct e1 as [e1 |].
    + injection Hrun as <- <-. split; [exact Hl1 | split].
      * exact Hstep.
      * discriminate.
    + destruct (IH kf1 Hrun) as (Hl & Hrest & Hfits).
      split; [congruence | split].
      * intros n. rewrite <- Hstep.
        specialize (Hrest n). unfold without_named in *.
        destruct (nth_error kf' n) as [d' |], (nth_error kf1 n) as [d1 |];
          simpl in *; try discriminate; [| reflexivity].
        injection Hrest as Hrest. f_equal.
        assert (Hsplit : forall d : kwargs V,
                   filter (fun kv => negb (names_param kf (item :: rest) n
                                             (fst kv))) d =
                   filter (fun kv =>
                             negb (match list_position kf (entry_index item)
                                   with
                                   | Some m =>
                                       (m =? n)%nat
                                       && existsb (String.eqb (fst kv))
                                            (entry_names item)
                                   | None => false
                                   end))
                     (filter (fun kv => negb (names_param kf1 rest n (fst kv)))
                        d)).
        { intros d. rewrite filter_filter. apply filter_ext. intros kv.
          simpl. rewrite (names_param_length V kf kf1) by exact Hl1.
          rewrite negb_orb. apply andb_comm. }
        rewrite !Hsplit, Hrest. reflexivity.
      * intros He. simpl. apply andb_true_iff. split.
        -- unfold remove_entry_fits.
           destruct (entry_names item) as [| k names] eqn:En;
             [reflexivity |].
           apply (fix_params_in_range _ _ _ _ _ _ _ Hfix). discriminate.
        -- rewrite <- (Hfits He). apply forallb_eq. intros it.
           unfold remove_entry_fits.
           rewrite (in_range_length kf kf1) by (symmetry; exact Hl1).
           reflexivity.
Qed.

Lemma replace_at_twice {A : Type} (n : nat) (x y : A) (l : list A) :
  replace_at n x (replace_at n y l) = replace_at n x l.
Proof.
  revert n. induction l as [| z l IH]; intros [| n]; simpl; try reflexivity.
  f_equal. apply IH.
Qed.

Lemma dict_lookup_None_keys {A : Type} (d : pydict A) (k : string) :
  dict_lookup d k = None -> forall kv, In kv d -> (fst kv =? k) = false.
Proof.
  induction d as [| [k' v'] d IH]; simpl; intros H kv Hin; [contradiction |].
  destruct (k' =? k) eqn:E; [discriminate H |].
  destruct Hin as [<- | Hin]; [exact E | exact (IH H kv Hin)].
Qed.

(** The inner loop of [_remove_fixed] on a model in range. *)
Lemma unfix_params_filter kf i n d names :
  list_position kf i = Some n -> nth_error kf n = Some d ->
  unfix_params kf i names =
  (replace_at n
     (filter (fun kv => negb (existsb (String.eqb (fst kv)) names)) d) kf,
   None).
Proof.
  revert kf d. induction names as [| k rest IH]; intros kf d Hn Hd; simpl.
  - rewrite filter_all by reflexivity.
    rewrite (replace_at_same _ _ _ Hd). reflexivity.
  - rewrite Hn, Hd.
    pose proof (list_position_lt _ _ _ Hn) as Hlt.
    destruct (dict_contains d k) eqn:Hc.
    + set (kf1 := replace_at n (dict_delitem d k) kf).
      rewrite (IH kf1 (dict_delitem d k)).
      * unfold kf1. rewrite replace_at_twice. unfold dict_delitem.
        rewrite filter_filter. f_equal. f_equal. apply filter_ext.
        intros kv. rewrite negb_orb. reflexivity.
      * rewrite <- Hn. apply list_position_length. apply length_replace_at.
      * apply nth_error_replace_at_eq. exact Hlt.
    + rewrite (IH kf d Hn Hd). f_equal. f_equal.
      apply filter_ext_in. intros kv Hin.
      apply dict_contains_false in Hc.
      rewrite (dict_lookup_None_keys d k Hc kv Hin). reflexivity.
Qed.

Lemma unfix_params_out_of_range kf i names :
  list_position kf i = None -> names <> [] ->
  unfix_params kf i names = (kf, Some IndexError).
Proof.
  destruct names as [| k rest]; [congruence |]. simpl. intros -> _.
  reflexivity.
Qed.

Lemma remove_fixed_returns kf items :
  forallb (remove_entry_fits kf) items = true ->
  exists kf',
    _remove_fixed kf items = (kf', None)
    /\ List.length kf' = List.length kf
    /\ forall n, nth_error kf' n
                 = option_map (without_named kf items n) (nth_error kf n).
Proof.
  revert kf. induction items as [| item rest IH]; intros kf Hfit; simpl.
  - exists kf. split; [reflexivity | split; [reflexivity |]].
    intros n. unfold without_named. simpl.
    destruct (nth_error kf n) as [d |]; simpl; [| reflexivity].
    rewrite filter_all by reflexivity. reflexivity.
  - simpl in Hfit. apply andb_true_iff in Hfit as [Hitem Hrest].
    unfold remove_entry_fits in Hitem.
    assert (Hstep : exists kf1,
               unfix_params kf (entry_index item) (entry_names item)
               = (kf1, None)
               /\ List.length kf1 = List.length kf
               /\ forall n, nth_error kf1 n
                            = option_map (without_named kf [item] n)
                                (nth_error kf n)).
    { assert (Hid : forall n (f : string * value V -> bool),
                 (forall kv, f kv = true) ->
                 nth_error kf n = option_map (filter f) (nth_error kf n)).
      { intros n f Hf. destruct (nth_error kf n) as [d |]; simpl;
          [| reflexivity].
        rewrite filter_all by exact Hf. reflexivity. }
      destruct (entry_names item) as [| k names] eqn:En.
      - exists kf. split; [reflexivity | split; [reflexivity |]].
        intros n. apply Hid. intros kv. unfold names_param. simpl.
        rewrite En. simpl.
        destruct (list_position kf (entry_index item)); simpl;
          [rewrite andb_false_r |]; reflexivity.
      - destruct (in_range_true _ _ Hitem) as [m Hm].
        destruct (list_position_nth _ _ _ Hm) as [d Hd].
        pose proof (list_position_lt _ _ _ Hm) as Hlt.
        eexists. split; [apply (unfix_params_filter kf _ m d); assumption |].
        split; [apply length_replace_at |].
        intros n. unfold without_named, names_param. simpl.
        rewrite Hm, En.
        destruct (Nat.eq_dec m n) as [<- | Hne].
        + rewrite nth_error_replace_at_eq by exact Hlt. rewrite Hd. simpl.
          f_equal. apply filter_ext. intros kv. rewrite Nat.eqb_refl.
          rewrite orb_false_r. reflexivity.
        + rewrite nth_error_replace_at_ne by exact Hne.
          apply Hid. intros kv.
          apply Nat.eqb_neq in Hne. rewrite Hne. reflexivity. }
    destruct Hstep as (kf1 & -> & Hl1 & Hnth1).
    destruct (IH kf1) as (kf' & -> & Hl & Hnth).
    { rewrite <- Hrest. apply forallb_eq. intros it. unfold remove_entry_fits.
      rewrite (in_range_length kf1 kf) by exact Hl1. reflexivity. }
    exists kf'. split; [reflexivity | split; [congruence |]].
    intros n. rewrite Hnth, Hnth1.
    destruct (nth_error kf n) as [d |]; simpl; [| reflexivity].
    f_equal. unfold without_named. rewrite filter_filter.
    apply filter_ext. intros kv.
    rewrite (names_param_length V kf kf1) by exact Hl1.
    unfold names_param. simpl. rewrite orb_false_r, negb_orb. reflexivity.
Qed.

Lemma remove_fixed_raises kf items :
  forallb (remove_entry_fits kf) items = false ->
  snd (_remove_fixed kf items) = Some IndexError.
Proof.
  revert kf. induction items as [| item rest IH]; intros kf Hfit;
    simpl in *; [discriminate Hfit |].
  destruct (remove_entry_fits kf item) eqn:Hitem; simpl in Hfit.
  - destruct (remove_fixed_returns kf [item]) as (kf1 & H1 & Hl1 & _).
    { simpl. rewrite Hitem. reflexivity. }
    simpl in H1.
    destruct (unfix_params kf (entry_index item) (entry_names item))
      as [kf2 [e |]]; [discriminate H1 |].
    injection H1 as ->. apply IH. rewrite <- Hfit. apply forallb_eq.
    intros it. unfold remove_entry_fits.
    rewrite (in_range_length kf1 kf) by exact Hl1. reflexivity.
  - unfold remove_entry_fits in Hitem.
    destruct (entry_names item) as [| k names] eqn:En; [discriminate Hitem |].
    rewrite unfix_params_out_of_range; [reflexivity | | discriminate].
    unfold in_range in Hitem.
    destruct (list_position kf (entry_index item)); [discriminate | reflexivity].
Qed.

Lemma remove_fixed_params kf items :
  forallb (remove_entry_fits kf) items = true ->
  exists kf',
    _remove_fixed kf items = (kf', None)
    /\ List.length kf' = List.length kf
    /\ forall n k,
         param_at kf' n k =
         if names_param kf items n k then None else param_at kf n k.
Proof.
  intros Hfit. destruct (remove_fixed_returns kf items Hfit)
    as (kf' & Hrun & Hl & Hnth).
  exists kf'. split; [exact Hrun | split; [exact Hl |]].
  intros n k. unfold param_at. rewrite Hnth.
  destruct (nth_error kf n) as [d |]; simpl.
  - unfold without_named.
    rewrite (dict_lookup_filter (fun x => negb (names_param kf items n x))).
    destruct (names_param kf items n k); reflexivity.
  - destruct (names_param kf items n k); reflexivity.
Qed.

(** X6.  [_remove_fixed] returns exactly when every entry that names
    parameters has its model index in range; then each model has lost the
    parameters the entries name for it and kept its other parameters with
    their values.  Otherwise it raises [IndexError]; a parameter that is not
    fixed is no error. *)
Theorem remove_fixed_drops_named kf items :
  (forallb (remove_entry_fits kf) items = true ->
   exists kf',
     _remove_fixed kf items = (kf', None)
     /\ List.length kf' = List.length kf
     /\ forall n k,
          param_at kf' n k =
          if names_param kf items n k then None else param_at kf n k)
  /\ (forallb (remove_entry_fits kf) items = false ->
      snd (_remove_fixed kf items) = Some IndexError).
Proof.
  split; [apply remove_fixed_params | apply remove_fixed_raises].
Qed.

(** X7.  Removing the same parameters a second time changes nothing. *)
Theorem remove_fixed_idempotent kf kf' items :
  _remove_fixed kf items = (kf', None) ->
  _remove_fixed kf' items = (kf', None).
Proof.
  intros Hrun.
  destruct (forallb (remove_entry_fits kf) items) eqn:Hfit.
  2:{ pose proof (remove_fixed_raises kf items Hfit) as H.
      rewrite Hrun in H. discriminate H. }
  destruct (remove_fixed_returns kf items Hfit) as (kf1 & H1 & Hl & Hnth).
  assert (kf1 = kf') by congruence. subst kf1.
  destruct (remove_fixed_returns kf' items) as (kf2 & -> & Hl2 & Hnth2).
  { rewrite <- Hfit. apply forallb_eq. intros it. unfold remove_entry_fits.
    rewrite (in_range_length kf' kf) by exact Hl. reflexivity. }
  f_equal. apply nth_error_ext. intros n. rewrite Hnth2, Hnth.
  destruct (nth_error kf n) as [d |]; simpl; [| reflexivity].
  f_equal. unfold without_named. rewrite filter_filter.
  apply filter_ext. intros kv.
  rewrite (names_param_length V kf kf') by exact Hl.
  apply andb_diag.
Qed.

(** X8.  Parameters that were not fixed before, fixed by [_add_fixed] and
    then removed by [_remove_fixed] with the same entries: the fixed
    parameters are back as they were. *)
Theorem remove_fixed_undoes_add_fixed km kf kf1 items :
  _add_fixed km kf items = (kf1, None) ->
  (forall n k, names_param kf items n k = true -> param_at kf n k = None) ->
  _remove_fixed kf1 items = (kf, None).
Proof.
  intros Hadd Hfresh.
  destruct (add_fixed_touches _ _ _ _ _ Hadd) as (Hl1 & Hkeep & Hfits).
  specialize (Hfits eq_refl).
  destruct (remove_fixed_returns kf1 items) as (kf2 & -> & Hl2 & Hnth).
  { rewrite <- Hfits. apply forallb_eq. intros it. unfold remove_entry_fits.
    rewrite (in_range_length kf1 kf) by exact Hl1. reflexivity. }
  f_equal. apply nth_error_ext. intros n. rewrite Hnth.
  assert (Hsame : forall d,
             without_named kf1 items n d = without_named kf items n d).
  { intros d. unfold without_named. apply filter_ext. intros kv.
    rewrite (names_param_length V kf kf1) by exact Hl1. reflexivity. }
  transitivity (option_map (without_named kf items n) (nth_error kf1 n)).
  { destruct (nth_error kf1 n) as [d1 |]; simpl; [| reflexivity].
    rewrite Hsame. reflexivity. }
  rewrite Hkeep.
  destruct (nth_error kf n) as [d |] eqn:Hd; simpl; [| reflexivity].
  f_equal. unfold without_named.
  apply (filter_absent (fun k => negb (names_param kf items n k))).
  intros k Hk. apply negb_false_iff in Hk.
  specialize (Hfresh n k Hk). unfold param_at in Hfresh.
  rewrite Hd in Hfresh. exact Hfresh.
Qed.






End Fixed.

Lemma add_fixed_with_values_witness :
  let kf : kwargs_list Z := [[]; [("amp", Some 2%Z)]] in
  _add_fixed None kf
    [{| entry_index := 1%Z; entry_names := ["amp"; "e1"];
        entry_values := Some [Some 5%Z; Some 6%Z] |}]
  = ([[]; [("amp", Some 5%Z); ("e1", Some 6%Z)]], None).
Proof.
  intros kf.
  exact (add_fixed_with_values Z None kf
           [{| entry_index := 1%Z; entry_names := ["amp"; "e1"];
               entry_values := Some [Some 5%Z; Some 6%Z] |}] eq_refl).
Defined.

Lemma remove_fixed_drops_named_witness :
  let kf : kwargs_list Z := [[("amp", Some 1%Z); ("e1", Some 3%Z)]] in
  exists kf',
    _remove_fixed kf
      [{| entry_index := 0%Z; entry_names := ["e1"; "e2"];
          entry_values := None |}] = (kf', None)
    /\ param_at kf' 0 "e1" = None
    /\ param_at kf' 0 "amp" = Some (Some 1%Z).
Proof.
  intros kf.
  destruct (proj1 (remove_fixed_drops_named Z kf
                     [{| entry_index := 0%Z; entry_names := ["e1"; "e2"];
                         entry_values := None |}]) eq_refl)
    as (kf' & Hrun & _ & Hparams).
  exists kf'. split; [exact Hrun |].
  split; [exact (Hparams 0 "e1") | exact (Hparams 0 "amp")].
Defined.

Lemma remove_fixed_idempotent_witness :
  let kf : kwargs_list Z := [[("amp", Some 1%Z); ("e1", Some 3%Z)]] in
  let items : list (entry Z) :=
    [{| entry_index := 0%Z; entry_names := ["e1"]; entry_values := None |}] in
  _remove_fixed [[("amp", Some 1%Z)]] items = ([[("amp", Some 1%Z)]], None).
Proof.
  intros kf items.
  exact (remove_fixed_idempotent Z kf [[("amp", Some 1%Z)]] items eq_refl).
Defined.

Lemma remove_fixed_undoes_add_fixed_witness :
  let km : kwargs_list Z := [[("amp", Some 1%Z); ("e1", Some 3%Z)]] in
  let kf : kwargs_list Z := [[("amp", Some 1%Z)]] in
  let items : list (entry Z) :=
    [{| entry_index := 0%Z; entry_names := ["e1"]; entry_values := None |}] in
  _add_fixed (Some km) kf items
  = ([[("amp", Some 1%Z); ("e1", Some 3%Z)]], None)
  /\ _remove_fixed [[("amp", Some 1%Z); ("e1", Some 3%Z)]] items = (kf, None).
Proof.
  intros km kf items. split; [reflexivity |].
  apply (remove_fixed_undoes_add_fixed Z (Some km) kf _ items eq_refl).
  intros [| n] k H; [| destruct n; discriminate H].
  unfold names_param in H. simpl in H. rewrite orb_false_r in H.
  apply orb_true_iff in H as [H | H]; [| discriminate H].
  apply String.eqb_eq in H. subst k. reflexivity.
Defined.



(** ** The manager's state *)

Section ManagerFacts.

Variable V : Type.

Implicit Types (self : UpdateManager V) (t : model_type)
  (items : list (entry V)).

Lemma set_attributes_same t self :
  set_attributes t (attributes t self) self = self.
Proof. destruct t, self; reflexivity. Qed.

Lemma with_init_same {A : Type} (f : five A) : with_init f (init f) = f.
Proof. destruct f; reflexivity. Qed.

Lemma set_attributes_twice t (f f' : five (kwargs_list V)) self :
  set_attributes t f' (set_attributes t f self) = set_attributes t f' self.
Proof. destruct t; reflexivity. Qed.

Lemma attributes_set_attributes t (f : five (kwargs_list V)) self :
  attributes t (set_attributes t f self) = f.
Proof. destruct t; reflexivity. Qed.

Lemma attributes_set_other t t' (f : five (kwargs_list V)) self :
  t <> t' -> attributes t' (set_attributes t f self) = attributes t' self.
Proof. destruct t, t'; intros H; try reflexivity; congruence. Qed.

Lemma skipn_nth_error {A : Type} (l : list A) (j : nat) (x : A) :
  nth_error l j = Some x -> skipn j l = x :: skipn (S j) l.
Proof.
  revert j. induction l as [| y l IH]; intros [| j] H; simpl in *;
    try discriminate.
  - congruence.
  - apply IH. exact H.
Qed.

(** Writing through an entry of the parameter state that is the [_init]
    attribute itself writes into that attribute. *)
Lemma write_values_initial t i values keys :
  forall j self kw',
    temp_slot t (_kwargs_temp self) = Initial ->
    assign_limits (init (attributes t self)) i values j keys = Return kw' ->
    write_values t i keys (skipn j values) self =
    (set_attributes t (with_init (attributes t self) kw') self, None).
Proof.
  induction keys as [| k rest IH]; intros j self kw' Hslot Hrun;
    simpl in Hrun.
  - injection Hrun as <-. simpl.
    rewrite with_init_same, set_attributes_same. reflexivity.
  - unfold seq_getitem in Hrun.
    destruct (nth_error values j) as [v |] eqn:Ev; [| discriminate Hrun].
    simpl in Hrun.
    destruct (setitem_at (init (attributes t self)) i k v) as [kw1 |] eqn:Hset;
      [| discriminate Hrun].
    simpl in Hrun. rewrite (skipn_nth_error _ _ _ Ev).
    cbn [write_values].
    unfold temp_getitem. rewrite Hslot. cbn [deref]. rewrite Hset.
    unfold temp_store. rewrite Hslot.
    set (self1 := set_attributes t (with_init (attributes t self) kw1) self).
    assert (Hslot1 : temp_slot t (_kwargs_temp self1) = Initial)
      by (destruct t; exact Hslot).
    assert (Hinit1 : init (attributes t self1) = kw1)
      by (unfold self1; rewrite attributes_set_attributes; reflexivity).
    rewrite (IH (S j) self1 kw' Hslot1) by (rewrite Hinit1; exact Hrun).
    unfold self1. rewrite attributes_set_attributes, set_attributes_twice.
    reflexivity.
Qed.

Lemma write_items_initial t items :
  forall self kw',
    temp_slot t (_kwargs_temp self) = Initial ->
    update_limit_loop items (init (attributes t self)) = Return kw' ->
    write_items t items self =
    (set_attributes t (with_init (attributes t self) kw') self, None).
Proof.
  induction items as [| item rest IH]; intros self kw' Hslot Hrun.
  - simpl in Hrun. injection Hrun as <-. simpl.
    rewrite with_init_same, set_attributes_same. reflexivity.
  - apply update_limit_loop_cons in Hrun as (values & kw1 & Hv & H1 & Hrest).
    simpl. unfold entry_third. rewrite Hv.
    rewrite (write_values_initial t _ values _ 0 self kw1 Hslot H1
             : write_values t _ _ values self = _).
    unfold and_then.
    set (self1 := set_attributes t (with_init (attributes t self) kw1) self).
    assert (Hslot1 : temp_slot t (_kwargs_temp self1) = Initial)
      by (destruct t; exact Hslot).
    assert (Hinit1 : init (attributes t self1) = kw1)
      by (unfold self1; rewrite attributes_set_attributes; reflexivity).
    rewrite (IH self1 kw' Hslot1) by (rewrite Hinit1; exact Hrest).
    unfold self1. rewrite attributes_set_attributes, set_attributes_twice.
    reflexivity.
Qed.

(** X11.  The parameter state set by [set_init_state] is made of the
    initial parameters themselves, not of copies.  When the four lists of
    entries are such that [_update_limit] would carry them out on the
    initial parameters, [update_param_value] carries them out on the initial
    parameters: afterwards [init_kwargs] holds the new values, it is what
    [parameter_state] returns, and [set_init_state] does not bring the old
    values back. *)
Theorem update_param_value_writes_init lens source lens_light ps self
    (l s ll p : kwargs_list V) :
  _update_limit lens (init (_lens self)) = Return l ->
  _update_limit source (init (_source self)) = Return s ->
  _update_limit lens_light (init (_lens_light self)) = Return ll ->
  _update_limit ps (init (_ps self)) = Return p ->
  exists self',
    update_param_value lens source lens_light ps (set_init_state self)
    = (self', None)
    /\ state_lens (init_kwargs self') = Some l
    /\ state_source (init_kwargs self') = Some s
    /\ state_lens_light (init_kwargs self') = Some ll
    /\ state_ps (init_kwargs self') = Some p
    /\ parameter_state self' = init_kwargs self'
    /\ parameter_state (set_init_state self') = parameter_state self'.
Proof.
  unfold _update_limit, deepcopy. intros Hl Hs Hll Hp.
  unfold update_param_value.
  set (s0 := set_init_state self).
  set (s1 := set_attributes Lens (with_init (attributes Lens s0) l) s0).
  set (s2 := set_attributes Source (with_init (attributes Source s1) s) s1).
  set (s3 := set_attributes LensLight
               (with_init (attributes LensLight s2) ll) s2).
  rewrite (write_items_initial Lens lens s0 l eq_refl Hl).
  unfold and_then. fold s1.
  rewrite (write_items_initial Source source s1 s eq_refl Hs). fold s2.
  rewrite (write_items_initial LensLight lens_light s2 ll eq_refl Hll).
  fold s3.
  rewrite (write_items_initial PointSource ps s3 p eq_refl Hp).
  eexists. split; [reflexivity |]. repeat split.
Qed.

(** Writing through an entry that was handed to [update_param_state]
    leaves the attributes alone. *)
Lemma write_values_given t i keys :
  forall values self self' e,
    (exists x, temp_slot t (_kwargs_temp self) = Given x) ->
    write_values t i keys values self = (self', e) ->
    (exists x, temp_slot t (_kwargs_temp self') = Given x)
    /\ (forall t', t' <> t ->
          temp_slot t' (_kwargs_temp self') = temp_slot t' (_kwargs_temp self))
    /\ kwargs_special (_kwargs_temp self') = kwargs_special (_kwargs_temp self)
    /\ kwargs_extinction (_kwargs_temp self')
       = kwargs_extinction (_kwargs_temp self)
    /\ _lens self' = _lens self /\ _source self' = _source self
    /\ _lens_light self' = _lens_light self /\ _ps self' = _ps self
    /\ _special self' = _special self /\ _extinction self' = _extinction self.
Proof.
  induction keys as [| k rest IH]; intros values self self' e Hslot Hrun.
  - simpl in Hrun. injection Hrun as <- <-. repeat split; auto.
  - destruct values as [| v values'].
    { simpl in Hrun. injection Hrun as <- <-. repeat split; auto. }
    simpl in Hrun.
    destruct (temp_getitem t self) as [kw |] eqn:Hget.
    2:{ injection Hrun as <- <-. repeat split; auto. }
    destruct (setitem_at kw i k v) as [kw1 |].
    2:{ injection Hrun as <- <-. repeat split; auto. }
    destruct Hslot as [x Hslot].
    assert (Hstore : temp_store t kw1 self
                     = set_temp (set_temp_slot t (Given (Some kw1))
                                   (_kwargs_temp self)) self)
      by (unfold temp_store; rewrite Hslot; reflexivity).
    rewrite Hstore in Hrun.
    apply IH in Hrun; [| exists (Some kw1); destruct t; reflexivity].
    destruct Hrun as (Hg & Hother & Hsp & Hex & H1 & H2 & H3 & H4 & H5 & H6).
    repeat split; try assumption.
    + intros t' Ht'. rewrite (Hother t' Ht').
      destruct t, t'; try reflexivity; congruence.
    + rewrite Hsp. destruct t; reflexivity.
    + rewrite Hex. destruct t; reflexivity.
Qed.

Lemma write_items_given t items :
  forall self self' e,
    (exists x, temp_slot t (_kwargs_temp self) = Given x) ->
    write_items t items self = (self', e) ->
    (exists x, temp_slot t (_kwargs_temp self') = Given x)
    /\ (forall t', t' <> t ->
          temp_slot t' (_kwargs_temp self') = temp_slot t' (_kwargs_temp self))
    /\ kwargs_special (_kwargs_temp self') = kwargs_special (_kwargs_temp self)
    /\ kwargs_extinction (_kwargs_temp self')
       = kwargs_extinction (_kwargs_temp self)
    /\ _lens self' = _lens self /\ _source self' = _source self
    /\ _lens_light self' = _lens_light self /\ _ps self' = _ps self
    /\ _special self' = _special self /\ _extinction self' = _extinction self.
Proof.
  induction items as [| item rest IH]; intros self self' e Hslot Hrun.
  - simpl in Hrun. injection Hrun as <- <-. repeat split; auto.
  - simpl in Hrun. destruct (entry_third item) as [values |].
    2:{ injection Hrun as <- <-. repeat split; auto. }
    destruct (write_values t (entry_index item) (entry_names item) values self)
      as [self1 e1] eqn:H1.
    apply write_values_given in H1; [| exact Hslot].
    destruct H1 as (Hg1 & Ho1 & Hs1 & He1 & A1 & A2 & A3 & A4 & A5 & A6).
    unfold and_then in Hrun. destruct e1 as [e1 |].
    { injection Hrun as <- <-. repeat split; auto. }
    apply IH in Hrun; [| exact Hg1].
    destruct Hrun as (Hg & Ho & Hs & He & B1 & B2 & B3 & B4 & B5 & B6).
    repeat split; try congruence.
    intros t' Ht'. rewrite (Ho t' Ht'). apply Ho1. exact Ht'.
Qed.

(** X12.  After [update_param_state] the parameter state is made of the
    objects handed in: whatever [update_param_value] then does, and whether
    it returns or raises, the initial parameters, the fixed parameters and
    the limits of the manager are what they were. *)
Theorem update_param_value_after_update_param_state
    lens source lens_light ps kwargs_lens kwargs_source kwargs_lens_light
    kwargs_ps kwargs_special kwargs_extinction self self' e :
  update_param_value lens source lens_light ps
    (update_param_state kwargs_lens kwargs_source kwargs_lens_light kwargs_ps
       kwargs_special kwargs_extinction self) = (self', e) ->
  _lens self' = _lens self /\ _source self' = _source self
  /\ _lens_light self' = _lens_light self /\ _ps self' = _ps self
  /\ _special self' = _special self /\ _extinction self' = _extinction self
  /\ init_kwargs self' = init_kwargs self
  /\ fixed_kwargs self' = fixed_kwargs self.
Proof.
  set (s0 := update_param_state _ _ _ _ _ _ self).
  unfold update_param_value, and_then. intros Hrun.
  assert (Hfin : _lens self' = _lens self /\ _source self' = _source self
                 /\ _lens_light self' = _lens_light self
                 /\ _ps self' = _ps self /\ _special self' = _special self
                 /\ _extinction self' = _extinction self).
  { assert (Z : _lens s0 = _lens self /\ _source s0 = _source self
                /\ _lens_light s0 = _lens_light self /\ _ps s0 = _ps self
                /\ _special s0 = _special self
                /\ _extinction s0 = _extinction self)
      by (repeat split; reflexivity).
    destruct Z as (Z1 & Z2 & Z3 & Z4 & Z5 & Z6).
    destruct (write_items Lens lens s0) as [s1 e1] eqn:H1.
    apply write_items_given in H1; [| eexists; reflexivity].
    destruct H1 as (_ & Ho1 & _ & _ & A1 & A2 & A3 & A4 & A5 & A6).
    destruct e1 as [e1 |].
    { injection Hrun as <- <-. repeat split; congruence. }
    destruct (write_items Source source s1) as [s2 e2] eqn:H2.
    apply write_items_given in H2;
      [| rewrite (Ho1 Source) by discriminate; eexists; reflexivity].
    destruct H2 as (_ & Ho2 & _ & _ & B1 & B2 & B3 & B4 & B5 & B6).
    destruct e2 as [e2 |].
    { injection Hrun as <- <-. repeat split; congruence. }
    destruct (write_items LensLight lens_light s2) as [s3 e3] eqn:H3.
    apply write_items_given in H3;
      [| rewrite (Ho2 LensLight), (Ho1 LensLight) by discriminate;
         eexists; reflexivity].
    destruct H3 as (_ & Ho3 & _ & _ & C1 & C2 & C3 & C4 & C5 & C6).
    destruct e3 as [e3 |].
    { injection Hrun as <- <-. repeat split; congruence. }
    apply write_items_given in Hrun;
      [| rewrite (Ho3 PointSource), (Ho2 PointSource), (Ho1 PointSource)
           by discriminate; eexists; reflexivity].
    destruct Hrun as (_ & _ & _ & _ & D1 & D2 & D3 & D4 & D5 & D6).
    repeat split; congruence. }
  destruct Hfin as (F1 & F2 & F3 & F4 & F5 & F6).
  repeat split; try assumption.
  - unfold init_kwargs. rewrite F1, F2, F3, F4, F5, F6. reflexivity.
  - unfold fixed_kwargs. rewrite F1, F2, F3, F4, F5, F6. reflexivity.
Qed.

Lemma with_fixed_same {A : Type} (f : five A) : with_fixed f (fixed f) = f.
Proof. destruct f; reflexivity. Qed.

(** What [update_fixed] does for one model type. *)
Lemma fix_model_type_returns t add_fixed remove_fixed self self' :
  fix_model_type t add_fixed remove_fixed self = (self', None) ->
  exists kf1 kf',
    _add_fixed (temp_getitem t self) (fixed (attributes t self)) add_fixed
    = (kf1, None)
    /\ _remove_fixed kf1 remove_fixed = (kf', None)
    /\ self' = set_attributes t (with_fixed (attributes t self) kf') self.
Proof.
  unfold fix_model_type. cbv zeta.
  destruct (_add_fixed (temp_getitem t self) (fixed (attributes t self))
              add_fixed) as [kf1 [e |]] eqn:Hadd; [discriminate |].
  destruct (_remove_fixed kf1 remove_fixed) as [kf' [e |]] eqn:Hrem;
    [discriminate |].
  intros H. injection H as <-. exists kf1, kf'.
  split; [reflexivity | split; [exact Hrem | reflexivity]].
Qed.

Lemma temp_getitem_set_fixed t t' (kf : kwargs_list V) self :
  temp_getitem t' (set_attributes t (with_fixed (attributes t self) kf) self)
  = temp_getitem t' self.
Proof. destruct t, t'; reflexivity. Qed.

Lemma fixed_set_fixed_other t t' (kf : kwargs_list V) self :
  t <> t' ->
  fixed (attributes t' (set_attributes t (with_fixed (attributes t self) kf)
                          self))
  = fixed (attributes t' self).
Proof. destruct t, t'; intros H; try reflexivity; congruence. Qed.

Lemma fixed_set_fixed t (kf : kwargs_list V) self :
  fixed (attributes t (set_attributes t (with_fixed (attributes t self) kf)
                         self)) = kf.
Proof. destruct t; reflexivity. Qed.

Lemma add_special_lookup (special_temp : option (kwargs V))
    (special_add_fixed : list string) :
  forall (special_fixed special_fixed' : kwargs V),
    add_special special_temp special_fixed special_add_fixed
    = Return special_fixed' ->
    forall k,
      dict_lookup special_fixed' k =
      match dict_lookup special_fixed k with
      | Some v => Some v
      | None =>
          if existsb (String.eqb k) special_add_fixed then
            match special_temp with
            | Some tmp => dict_lookup tmp k
            | None => None
            end
          else None
      end.
Proof.
  induction special_add_fixed as [| a rest IH];
    intros special_fixed special_fixed' Hrun k; simpl in Hrun.
  - injection Hrun as <-. simpl. destruct (dict_lookup special_fixed k);
      reflexivity.
  - destruct (dict_contains special_fixed a) eqn:Hc.
    + rewrite (IH _ _ Hrun k). simpl.
      destruct (dict_lookup special_fixed k) eqn:Hk; [reflexivity |].
      destruct (k =? a) eqn:Eka; [| reflexivity].
      apply String.eqb_eq in Eka. subst a. unfold dict_contains in Hc.
      rewrite Hk in Hc. discriminate Hc.
    + destruct special_temp as [tmp |]; [| discriminate Hrun].
      unfold dict_getitem in Hrun.
      destruct (dict_lookup tmp a) as [v |] eqn:Hv; [| discriminate Hrun].
      simpl in Hrun. rewrite (IH _ _ Hrun k). simpl.
      apply dict_contains_false in Hc.
      destruct (k =? a) eqn:Eka.
      * apply String.eqb_eq in Eka. subst a.
        rewrite dict_lookup_setitem_eq, Hc. simpl. symmetry. exact Hv.
      * apply String.eqb_neq in Eka.
        rewrite dict_lookup_setitem_ne by congruence. reflexivity.
Qed.

Lemma remove_special_lookup (special_remove_fixed : list string) :
  forall (special_fixed : kwargs V) k,
    dict_lookup (remove_special special_fixed special_remove_fixed) k =
    if existsb (String.eqb k) special_remove_fixed then None
    else dict_lookup special_fixed k.
Proof.
  induction special_remove_fixed as [| r rest IH]; intros special_fixed k;
    simpl; [reflexivity |].
  destruct (dict_contains special_fixed r) eqn:Hc; rewrite IH.
  - destruct (k =? r) eqn:Ekr; simpl.
    + apply String.eqb_eq in Ekr. subst r.
      rewrite dict_lookup_delitem_eq.
      destruct (existsb (String.eqb k) rest); reflexivity.
    + apply String.eqb_neq in Ekr.
      rewrite dict_lookup_delitem_ne by congruence. reflexivity.
  - destruct (k =? r) eqn:Ekr; simpl; [| reflexivity].
    apply String.eqb_eq in Ekr. subst r.
    apply dict_contains_false in Hc. rewrite Hc.
    destruct (existsb (String.eqb k) rest); reflexivity.
Qed.

(** The steps of [update_fixed] when it returns. *)
Lemma update_fixed_steps lens_add_fixed source_add_fixed lens_light_add_fixed
    ps_add_fixed special_add_fixed lens_remove_fixed source_remove_fixed
    lens_light_remove_fixed ps_remove_fixed special_remove_fixed self self' :
  update_fixed lens_add_fixed source_add_fixed lens_light_add_fixed
    ps_add_fixed special_add_fixed lens_remove_fixed source_remove_fixed
    lens_light_remove_fixed ps_remove_fixed special_remove_fixed self
  = (self', None) ->
  let added t :=
    match t with
    | Lens => lens_add_fixed
    | Source => source_add_fixed
    | LensLight => lens_light_add_fixed
    | PointSource => ps_add_fixed
    end in
  let removed t :=
    match t with
    | Lens => lens_remove_fixed
    | Source => source_remove_fixed
    | LensLight => lens_light_remove_fixed
    | PointSource => ps_remove_fixed
    end in
  (forall t, exists kf1,
      _add_fixed (temp_getitem t self) (fixed (attributes t self)) (added t)
      = (kf1, None)
      /\ _remove_fixed kf1 (removed t) = (fixed (attributes t self'), None))
  /\ (exists special_fixed,
        add_special (state_special (parameter_state self))
          (fixed (_special self)) special_add_fixed = Return special_fixed
        /\ fixed (_special self')
           = remove_special special_fixed special_remove_fixed).
Proof.
  intros Hrun added removed. unfold update_fixed, and_then in Hrun.
  destruct (fix_model_type Lens lens_add_fixed lens_remove_fixed self)
    as [s1 [e |]] eqn:H1; [discriminate Hrun |].
  destruct (fix_model_type Source source_add_fixed source_remove_fixed s1)
    as [s2 [e |]] eqn:H2; [discriminate Hrun |].
  destruct (fix_model_type LensLight lens_light_add_fixed
              lens_light_remove_fixed s2) as [s3 [e |]] eqn:H3;
    [discriminate Hrun |].
  destruct (fix_model_type PointSource ps_add_fixed ps_remove_fixed s3)
    as [s4 [e |]] eqn:H4; [discriminate Hrun |].
  apply fix_model_type_returns in H1 as (a1 & r1 & Ha1 & Hr1 & ->).
  apply fix_model_type_returns in H2 as (a2 & r2 & Ha2 & Hr2 & ->).
  apply fix_model_type_returns in H3 as (a3 & r3 & Ha3 & Hr3 & ->).
  apply fix_model_type_returns in H4 as (a4 & r4 & Ha4 & Hr4 & ->).
  unfold deepcopy in Hrun.
  match type of Hrun with
  | match add_special ?tmp ?sf ?adds with _ => _ end = _ =>
      destruct (add_special tmp sf adds) as [sf' |] eqn:Hsp;
        [| discriminate Hrun]
  end.
  injection Hrun as <-. split.
  - intros [| | |]; [exists a1 | exists a2 | exists a3 | exists a4];
      (split; [assumption |]); assumption.
  - exists sf'. split; [exact Hsp | reflexivity].
Qed.

(** X13.  When [update_fixed] returns, the fixed parameters of each model
    type are those [_remove_fixed] makes of what [_add_fixed] makes of the
    fixed parameters the manager had, with the parameter state of that type
    as the model parameters: the model types do not interfere.  A parameter
    that is named for removal is not fixed afterwards, whether or not it was
    also named for fixing. *)
Theorem update_fixed_adds_then_removes lens_add_fixed source_add_fixed
    lens_light_add_fixed ps_add_fixed special_add_fixed lens_remove_fixed
    source_remove_fixed lens_light_remove_fixed ps_remove_fixed
    special_remove_fixed self self' :
  update_fixed lens_add_fixed source_add_fixed lens_light_add_fixed
    ps_add_fixed special_add_fixed lens_remove_fixed source_remove_fixed
    lens_light_remove_fixed ps_remove_fixed special_remove_fixed self
  = (self', None) ->
  let added t :=
    match t with
    | Lens => lens_add_fixed
    | Source => source_add_fixed
    | LensLight => lens_light_add_fixed
    | PointSource => ps_add_fixed
    end in
  let removed t :=
    match t with
    | Lens => lens_remove_fixed
    | Source => source_remove_fixed
    | LensLight => lens_light_remove_fixed
    | PointSource => ps_remove_fixed
    end in
  forall t,
    (exists kf1,
        _add_fixed (temp_getitem t self) (fixed (attributes t self)) (added t)
        = (kf1, None)
        /\ _remove_fixed kf1 (removed t) = (fixed (attributes t self'), None))
    /\ (forall n k,
          names_param (fixed (attributes t self)) (removed t) n k = true ->
          param_at (fixed (attributes t self')) n k = None).
Proof.
  intros Hrun added removed t.
  destruct (update_fixed_steps _ _ _ _ _ _ _ _ _ _ _ _ Hrun) as [Hsteps _].
  destruct (Hsteps t) as (kf1 & Hadd & Hrem).
  change (_add_fixed (temp_getitem t self) (fixed (attributes t self))
            (added t) = (kf1, None)) in Hadd.
  change (_remove_fixed kf1 (removed t) = (fixed (attributes t self'), None))
    in Hrem.
  split; [exists kf1; split; assumption |].
  intros n k Hnamed.
  destruct (add_fixed_touches _ _ _ _ _ _ Hadd) as (Hl1 & _).
  destruct (forallb (remove_entry_fits kf1) (removed t)) eqn:Hfit.
  - destruct (remove_fixed_params V kf1 (removed t) Hfit)
      as (kf' & Hrun' & _ & Hparams).
    assert (kf' = fixed (attributes t self')) by congruence. subst kf'.
    rewrite Hparams.
    rewrite (names_param_length V (fixed (attributes t self)) kf1)
      by exact Hl1.
    rewrite Hnamed. reflexivity.
  - pose proof (remove_fixed_raises V kf1 (removed t) Hfit) as H.
    rewrite Hrem in H. discriminate H.
Qed.

(** X14.  The special parameters are fixed differently from the others:
    [update_fixed] leaves the value of a special parameter that is already
    fixed as it is, and fixes one that is not at its value in the parameter
    state.  Removal comes last: a name to be removed is not fixed
    afterwards. *)
Theorem update_fixed_special lens_add_fixed source_add_fixed
    lens_light_add_fixed ps_add_fixed special_add_fixed lens_remove_fixed
    source_remove_fixed lens_light_remove_fixed ps_remove_fixed
    special_remove_fixed self self' :
  update_fixed lens_add_fixed source_add_fixed lens_light_add_fixed
    ps_add_fixed special_add_fixed lens_remove_fixed source_remove_fixed
    lens_light_remove_fixed ps_remove_fixed special_remove_fixed self
  = (self', None) ->
  forall k,
    dict_lookup (fixed (_special self')) k =
    if existsb (String.eqb k) special_remove_fixed then None
    else
      match dict_lookup (fixed (_special self)) k with
      | Some v => Some v
      | None =>
          if existsb (String.eqb k) special_add_fixed then
            match state_special (parameter_state self) with
            | Some tmp => dict_lookup tmp k
            | None => None
            end
          else None
      end.
Proof.
  intros Hrun k.
  destruct (update_fixed_steps _ _ _ _ _ _ _ _ _ _ _ _ Hrun)
    as [_ (sf & Hadd & ->)].
  rewrite remove_special_lookup, (add_special_lookup _ _ _ _ Hadd k).
  reflexivity.
Qed.

(** X15.  [update_limits] changes the lower and the upper limits of the
    source models and nothing else, also when it raises.  It is not
    all-or-nothing: when the change of the lower limits is carried out and
    the change of the upper limits raises, the lower limits stay changed. *)
Theorem update_limits_changes_source_limits change_source_lower_limit
    change_source_upper_limit self self' e :
  update_limits change_source_lower_limit change_source_upper_limit self
  = (self', e) ->
  (_lens self' = _lens self /\ _lens_light self' = _lens_light self
   /\ _ps self' = _ps self /\ _special self' = _special self
   /\ _extinction self' = _extinction self
   /\ _kwargs_temp self' = _kwargs_temp self
   /\ init (_source self') = init (_source self)
   /\ sigma (_source self') = sigma (_source self)
   /\ fixed (_source self') = fixed (_source self))
  /\ (forall lower_change upper_change updated e',
        change_source_lower_limit = Some lower_change ->
        change_source_upper_limit = Some upper_change ->
        _update_limit lower_change (lower (_source self)) = Return updated ->
        _update_limit upper_change (upper (_source self)) = Raise e' ->
        e = Some e' /\ lower (_source self') = updated
        /\ upper (_source self') = upper (_source self)).
Proof.
  unfold update_limits, and_then. intros Hrun. split.
  - destruct change_source_lower_limit as [lo |],
      change_source_upper_limit as [up |];
      repeat match type of Hrun with
        | context [match _update_limit ?c ?l with _ => _ end] =>
            destruct (_update_limit c l); simpl in Hrun
        end;
      injection Hrun as <- <-; repeat split.
  - intros lo up updated e' -> -> Hlo Hup. rewrite Hlo in Hrun.
    simpl in Hrun. rewrite Hup in Hrun. injection Hrun as <- <-.
    repeat split.
Qed.

Lemma write_values_paired t i keys :
  forall values self,
    write_values t i (firstn (List.length values) keys) values self
    = write_values t i keys values self.
Proof.
  induction keys as [| k rest IH]; intros values self.
  - rewrite firstn_nil. reflexivity.
  - destruct values as [| v values']; [reflexivity |]. simpl.
    destruct (temp_getitem t self) as [kw |]; [| reflexivity].
    destruct (setitem_at kw i k v) as [kw' |]; [apply IH | reflexivity].
Qed.

Lemma write_items_paired t items :
  forall self,
    write_items t (map paired_names items) self = write_items t items self.
Proof.
  induction items as [| item rest IH]; intros self; simpl; [reflexivity |].
  unfold entry_third. simpl.
  destruct (entry_values item) as [values |]; [| reflexivity].
  rewrite write_values_paired.
  destruct (write_values t (entry_index item) (entry_names item) values self)
    as [s1 [e |]]; simpl; [reflexivity | apply IH].
Qed.

(** X16.  [update_param_value] pairs the names of an entry with its values
    by [zip]: a name that has no value is skipped without an error, and the
    call does what it does on the entries without such names.
    ([_update_limit] raises [IndexError] on such an entry.) *)
Theorem update_param_value_skips_unpaired lens source lens_light ps self :
  update_param_value (map paired_names lens) (map paired_names source)
    (map paired_names lens_light) (map paired_names ps) self
  = update_param_value lens source lens_light ps self.
Proof.
  unfold update_param_value, and_then.
  rewrite write_items_paired.
  destruct (write_items Lens lens self) as [s1 [e |]]; [reflexivity |].
  rewrite write_items_paired.
  destruct (write_items Source source s1) as [s2 [e |]]; [reflexivity |].
  rewrite write_items_paired.
  destruct (write_items LensLight lens_light s2) as [s3 [e |]];
    [reflexivity |].
  apply write_items_paired.
Qed.

(** X17.  When the parameter state holds [None] for the lens models (a
    call of [update_param_state] without them), [update_fixed] with an entry
    [[i_model, [names]]] that names a lens parameter raises [TypeError] and
    fixes nothing. *)
Theorem update_fixed_without_state item lens_add_fixed source_add_fixed
    lens_light_add_fixed ps_add_fixed special_add_fixed lens_remove_fixed
    source_remove_fixed lens_light_remove_fixed ps_remove_fixed
    special_remove_fixed self :
  state_lens (parameter_state self) = None ->
  entry_values item = None ->
  entry_names item <> [] ->
  update_fixed (item :: lens_add_fixed) source_add_fixed lens_light_add_fixed
    ps_add_fixed special_add_fixed lens_remove_fixed source_remove_fixed
    lens_light_remove_fixed ps_remove_fixed special_remove_fixed self
  = (self, Some TypeError).
Proof.
  intros Hstate Hnone Hnames.
  unfold update_fixed, and_then, fix_model_type.
  assert (Hget : temp_getitem Lens self = None) by exact Hstate.
  rewrite Hget. simpl. unfold entry_values_or_none. rewrite Hnone.
  destruct (entry_names item) as [| k names]; [congruence |]. simpl.
  rewrite with_fixed_same. destruct self; reflexivity.
Qed.

End ManagerFacts.

Lemma update_param_value_writes_init_witness :
  exists self',
    update_param_value [value_entry 0 "theta_E" 5] [] [] []
      (set_init_state sample_manager) = (self', None)
    /\ state_lens (init_kwargs self')
       = Some [[("theta_E", Some 5%Z); ("e1", Some 0%Z)]]
    /\ state_source (init_kwargs self') = Some [[("R_sersic", Some 2%Z)]]
    /\ state_lens_light (init_kwargs self') = Some []
    /\ state_ps (init_kwargs self') = Some []
    /\ parameter_state self' = init_kwargs self'
    /\ parameter_state (set_init_state self') = parameter_state self'.
Proof.
  exact (update_param_value_writes_init Z [value_entry 0 "theta_E" 5] [] [] []
           sample_manager _ _ _ _ eq_refl eq_refl eq_refl eq_refl).
Defined.

Lemma update_param_value_after_update_param_state_witness :
  let handed : kwargs_list Z := [[("theta_E", Some 1%Z)]] in
  let result :=
    update_param_value [value_entry 0 "theta_E" 5] [] [] []
      (update_param_state (Some handed) None None None None None
         sample_manager) in
  state_lens (parameter_state (fst result))
  = Some [[("theta_E", Some 5%Z)]]
  /\ init_kwargs (fst result) = init_kwargs sample_manager
  /\ fixed_kwargs (fst result) = fixed_kwargs sample_manager.
Proof.
  intros handed result. split; [reflexivity |].
  destruct (update_param_value_after_update_param_state Z
              [value_entry 0 "theta_E" 5] [] [] [] (Some handed) None None
              None None None sample_manager (fst result) (snd result))
    as (_ & _ & _ & _ & _ & _ & Hinit & Hfixed); [reflexivity |].
  split; [exact Hinit | exact Hfixed].
Defined.

Lemma update_fixed_adds_then_removes_witness :
  exists self',
    update_fixed [name_entry "theta_E"; name_entry "e1"] [] [] [] []
      [name_entry "e1"] [] [] [] [] sample_manager = (self', None)
    /\ param_at (fixed (_lens self')) 0 "e1" = None
    /\ param_at (fixed (_lens self')) 0 "theta_E" = Some (Some 1%Z).
Proof.
  eexists. split; [reflexivity |]. split; [| reflexivity].
  refine (proj2 (update_fixed_adds_then_removes Z
                   [name_entry "theta_E"; name_entry "e1"] [] [] [] []
                   [name_entry "e1"] [] [] [] [] sample_manager _ eq_refl Lens)
            0 "e1" eq_refl).
Defined.

Lemma update_fixed_special_witness :
  exists self',
    update_fixed [] [] [] [] ["delta_x"; "z"] [] [] [] [] [] sample_manager
    = (self', None)
    /\ dict_lookup (fixed (_special self')) "z" = Some (Some 9%Z)
    /\ dict_lookup (fixed (_special self')) "delta_x" = Some (Some 3%Z).
Proof.
  eexists. split; [reflexivity |].
  split;
    [exact (update_fixed_special Z [] [] [] [] ["delta_x"; "z"] [] [] [] [] []
              sample_manager _ eq_refl "z")
    | exact (update_fixed_special Z [] [] [] [] ["delta_x"; "z"] [] [] [] [] []
               sample_manager _ eq_refl "delta_x")].
Defined.

Lemma update_limits_changes_source_limits_witness :
  let result :=
    update_limits (Some [value_entry 0 "R_sersic" 1])
      (Some [value_entry 3 "R_sersic" 4]) sample_manager in
  snd result = Some IndexError
  /\ lower (_source (fst result)) = [[("R_sersic", Some 1%Z)]]
  /\ upper (_source (fst result)) = [[("R_sersic", Some 5%Z)]].
Proof.
  intros result.
  exact (proj2 (update_limits_changes_source_limits Z
                  (Some [value_entry 0 "R_sersic" 1])
                  (Some [value_entry 3 "R_sersic" 4]) sample_manager
                  (fst result) (snd result) eq_refl)
           _ _ _ _ eq_refl eq_refl eq_refl eq_refl).
Defined.

Lemma update_fixed_without_state_witness :
  let self := update_param_state None (Some [[("R_sersic", Some 2%Z)]]) None
                None None None sample_manager in
  update_fixed [name_entry "theta_E"] [] [] [] [] [] [] [] [] [] self
  = (self, Some TypeError).
Proof.
  intros self.
  apply (update_fixed_without_state Z (name_entry "theta_E") [] [] [] [] []
           [] [] [] [] [] self); [reflexivity | reflexivity | discriminate].
Defined.
